(** * SciCal: the authenticated calculator service of [main.py]

    A shallow embedding of the request handlers of [main.py] (FastAPI):
    the login route, the bearer-token gate, the audit logger and the six
    calculation routes, together with the parts of the Python runtime they
    call (float arithmetic, [math], [**], exceptions) and of the two
    libraries behind the gate and the login: the claim validation of
    python-jose's [jwt.decode] and the secret checks of passlib's
    [verify].

    Python floats are IEEE 754 binary64 values, modelled with the
    executable specification [SpecFloat] of the standard library.  The
    C library functions that are not correctly rounded (pow, log10, sin,
    tan), the text rendering of numbers, the reading of an integer from
    a string and the password hashing scheme are fields of a [Platform]
    record, over which the theorems quantify. *)

From Stdlib Require Import ZArith QArith Qabs Qpower Bool Lia String List.
From Stdlib Require Import Reals Qreals Lra.
From Stdlib Require Import Floats.SpecFloat.
From Stdlib Require Import Ascii.
From stdpp Require Import gmap strings pretty.

Open Scope Z_scope.

(** ** Binary64 floats *)

Module F64.

Definition prec : Z := 53.
Definition emax : Z := 1024.

Abbreviation float := spec_float.

(** The values a Python float can hold: mantissa and exponent in range. *)
Definition valid (x : float) : bool := valid_binary prec emax x.

Definition add : float -> float -> float := SFadd prec emax.
Definition sub : float -> float -> float := SFsub prec emax.
Definition mul : float -> float -> float := SFmul prec emax.
Definition div : float -> float -> float := SFdiv prec emax.
Definition sqrt : float -> float := SFsqrt prec emax.
Definition opp : float -> float := SFopp.
Definition fabs : float -> float := SFabs.

Definition eqb : float -> float -> bool := SFeqb.
Definition ltb : float -> float -> bool := SFltb.
Definition leb : float -> float -> bool := SFleb.

(** The float nearest to an integer (a literal such as [2] or [16.0]). *)
Definition of_Z (n : Z) : float := binary_normalize prec emax n 0 false.

Definition zero : float := S754_zero false.
Definition one : float := of_Z 1.
Definition two : float := of_Z 2.
Definition pinf : float := S754_infinity false.
Definition nan : float := S754_nan.

Definition is_nan (x : float) : bool :=
  match x with S754_nan => true | _ => false end.

Definition is_inf (x : float) : bool :=
  match x with S754_infinity _ => true | _ => false end.

Definition is_finite (x : float) : bool :=
  match x with S754_zero _ | S754_finite _ _ _ => true | _ => false end.

Definition signbit (x : float) : bool :=
  match x with
  | S754_zero s | S754_infinity s | S754_finite s _ _ => s
  | S754_nan => false
  end.

(** [copysign(0.0, x)] *)
Definition zero_with_sign_of (x : float) : float := S754_zero (signbit x).

(** [x == floor(x)] for a finite [x]: the value m * 2^e is an integer. *)
Definition is_integer (x : float) : bool :=
  match x with
  | S754_zero _ => true
  | S754_finite _ m e =>
      if 0 <=? e then true else (Z.pos m mod 2 ^ (- e) =? 0)
  | _ => false
  end.

(** [fmod(fabs(x), 2.0) == 1.0] *)
Definition is_odd_integer (x : float) : bool :=
  match x with
  | S754_finite _ m e =>
      if 0 <? e then false
      else (Z.pos m mod 2 ^ (- e) =? 0) && Z.odd (Z.pos m / 2 ^ (- e))
  | _ => false
  end.

(** The rational value of a finite float. *)
Definition to_Q (x : float) : Q :=
  match x with
  | S754_finite s m e =>
      (if s then -1 else 1) * (inject_Z (Z.pos m) * Qpower 2 e)
  | _ => 0
  end%Q.


End F64.

Import F64.

(** ** The Python runtime under the handlers *)

Module Py.

(** Exceptions the handlers can meet.  Anything but [HTTPException] is
    unhandled by FastAPI's routing and becomes a 500 response. *)
Inductive exn :=
| HTTPException (status_code : Z) (detail : string)
| ValueError (msg : string)
| OverflowError (msg : string)
| ZeroDivisionError (msg : string)
| JWTError (msg : string)
| OperationalError (msg : string)
| TypeError (msg : string).

Inductive res (A : Type) :=
| Ok (a : A)
| Raise (e : exn).
Arguments Ok {A} a.
Arguments Raise {A} e.

Definition bind {A B} (r : res A) (k : A -> res B) : res B :=
  match r with
  | Ok a => k a
  | Raise e => Raise e
  end.

(** A Python number: [**] on floats may return a [complex]. *)
Inductive num :=
| Float (x : float)
| Complex (re im : float).

(** What lies below the interpreter and is not fixed by IEEE 754: the C
    library, the shortest-repr printer and passlib's bcrypt context. *)
Record Platform := {
  c_pow : float -> float -> float;
  c_log10 : float -> float;
  c_sin : float -> float;
  c_tan : float -> float;
  (** [complex.__pow__] on a negative real base and a real exponent *)
  complex_pow : float -> float -> float * float;
  float_repr : float -> string;
  complex_repr : float -> float -> string;
  bcrypt_hash : string -> string;
  bcrypt_verify : string -> string -> bool;
  (** [int(s)] for a string [s]; [None] stands for its ValueError *)
  str_to_int : string -> option Z
}.

Section Runtime.
Variable P : Platform.

(** [str(v)] *)
Definition str (v : num) : string :=
  match v with
  | Float x => float_repr P x
  | Complex re im => complex_repr P re im
  end.

(** [float.__pow__] (floatobject.c, float_pow): the special cases are
    decided before the C library is called.  The range error of [pow]
    is read off its result, an infinity, and reported as OverflowError;
    [errno] has no other part in the model. *)
Definition float_pow (iv iw : float) : res num :=
  if eqb iw zero then Ok (Float one)
  else if is_nan iv then Ok (Float iv)
  else if is_nan iw then Ok (Float (if eqb iv one then one else iw))
  else if is_inf iw then
    let av := fabs iv in
    if eqb av one then Ok (Float one)
    else if Bool.eqb (ltb zero iw) (ltb one av) then Ok (Float (fabs iw))
    else Ok (Float zero)
  else if is_inf iv then
    let iw_is_odd := is_odd_integer iw in
    if ltb zero iw then Ok (Float (if iw_is_odd then iv else fabs iv))
    else Ok (Float (if iw_is_odd then zero_with_sign_of iv else zero))
  else if eqb iv zero then
    if ltb iw zero
    then Raise (ZeroDivisionError "0.0 cannot be raised to a negative power")
    else Ok (Float (if is_odd_integer iw then iv else zero))
  else if ltb iv zero && negb (is_integer iw) then
    let '(re, im) := complex_pow P iv iw in Ok (Complex re im)
  else
    let negate_result := ltb iv zero && is_odd_integer iw in
    let av := if ltb iv zero then opp iv else iv in
    if eqb av one then Ok (Float (if negate_result then opp one else one))
    else
      let ix := c_pow P av iw in
      if is_inf ix
      then Raise (OverflowError "(34, 'Numerical result out of range')")
      else Ok (Float (if negate_result then opp ix else ix)).

(** [complex - complex] and [complex / complex] (complexobject.c). *)
Definition c_diff (a b : float * float) : float * float :=
  (sub (fst a) (fst b), sub (snd a) (snd b)).

Definition c_quot (a b : float * float) : res (float * float) :=
  let abs_breal := if ltb (fst b) zero then opp (fst b) else fst b in
  let abs_bimag := if ltb (snd b) zero then opp (snd b) else snd b in
  if leb abs_bimag abs_breal then
    if eqb abs_breal zero
    then Raise (ZeroDivisionError "complex division by zero")
    else
      let ratio := div (snd b) (fst b) in
      let denom := add (fst b) (mul (snd b) ratio) in
      Ok (div (add (fst a) (mul (snd a) ratio)) denom,
          div (sub (snd a) (mul (fst a) ratio)) denom)
  else if leb abs_breal abs_bimag then
    let ratio := div (fst b) (snd b) in
    let denom := add (mul (fst b) ratio) (snd b) in
    Ok (div (add (mul (fst a) ratio) (snd a)) denom,
        div (sub (mul (snd a) ratio) (fst a)) denom)
  else Ok (nan, nan).

Definition as_complex (v : num) : float * float :=
  match v with
  | Float x => (x, zero)
  | Complex re im => (re, im)
  end.

(** [v - w] *)
Definition num_sub (v w : num) : res num :=
  match v, w with
  | Float x, Float y => Ok (Float (sub x y))
  | _, _ =>
      let '(re, im) := c_diff (as_complex v) (as_complex w) in
      Ok (Complex re im)
  end.

(** [v / w] *)
Definition num_truediv (v w : num) : res num :=
  match v, w with
  | Float x, Float y =>
      if eqb y zero then Raise (ZeroDivisionError "float division by zero")
      else Ok (Float (div x y))
  | _, _ =>
      bind (c_quot (as_complex v) (as_complex w))
           (fun q => Ok (Complex (fst q) (snd q)))
  end.

(** mathmodule.c, math_1: a NaN out of a non-NaN argument, or an
    infinity out of a finite one, is an error ([errno] apart). *)
Definition math_1 (func : float -> float) (can_overflow : bool)
           (x : float) : res float :=
  let r := func x in
  if is_nan r && negb (is_nan x) then Raise (ValueError "math domain error")
  else if is_inf r && is_finite x then
    if can_overflow then Raise (OverflowError "math range error")
    else Raise (ValueError "math domain error")
  else Ok r.

(** mathmodule.c, m_log10 *)
Definition m_log10 (x : float) : float :=
  if is_finite x then
    if ltb zero x then c_log10 P x
    else if eqb x zero then S754_infinity true
    else nan
  else if is_nan x then x
  else if ltb zero x then x
  else nan.

(** passlib, [pwd_context.verify(secret, hash)] on a stored bcrypt hash:
    the secret is checked before it is hashed, and a secret over the size
    limit or with a NUL in it is refused with an exception (both are
    subclasses of ValueError).  The limit counts characters, and a string
    of the model is the sequence of its characters. *)
Definition MAX_PASSWORD_SIZE : Z := 4096.

Fixpoint has_nul (secret : string) : bool :=
  match secret with
  | EmptyString => false
  | String c rest => Ascii.eqb c "000"%char || has_nul rest
  end.

Definition pwd_context_verify (secret hash : string) : res bool :=
  if MAX_PASSWORD_SIZE <? Z.of_nat (String.length secret)
  then Raise (ValueError "password exceeds maximum allowed size")
  else if has_nul secret
  then Raise (ValueError "bcrypt does not allow NULL bytes in password")
  else Ok (bcrypt_verify P secret hash).

Definition math_sqrt : float -> res float := math_1 sqrt false.
Definition math_log10 : float -> res float := math_1 m_log10 false.
Definition math_sin : float -> res float := math_1 (c_sin P) false.
Definition math_tan : float -> res float := math_1 (c_tan P) false.

End Runtime.

(** [1/3]: true division of two small ints is the rounded quotient. *)
Definition one_third : float := div (of_Z 1) (of_Z 3).

End Py.

Import Py.

(** ** Signed tokens (python-jose), symbolically

    A bearer string is either not a token at all or a claim set (a JSON
    object) signed with some key under some algorithm; a signature
    verifies exactly when key and algorithm are the verifier's.
    [jwt.decode] is called with its default options and with no
    audience, issuer, subject or access token. *)

Module Jose.

(** The values of a decoded JSON object. *)
#[local] Unset Elimination Schemes.
Inductive claim :=
| CStr (s : string)
| CInt (n : Z)
| CNull
| CBool (b : bool)
| CFloat (x : float)
| CList (items : list claim)
| CDict (items : list (string * claim)).
#[local] Set Elimination Schemes.

Record jws := {
  jws_claims : gmap string claim;
  jws_key : string;
  jws_alg : string
}.

Inductive token :=
| Malformed (raw : string)
| Signed (t : jws).

(** [jwt.encode(claims, key, algorithm=alg)] *)
Definition encode (claims : gmap string claim) (key alg : string) : token :=
  Signed {| jws_claims := claims; jws_key := key; jws_alg := alg |}.

Definition signature_ok (t : jws) (key : string) (algorithms : list string) : bool :=
  bool_decide (jws_key t = key) && bool_decide (jws_alg t ∈ algorithms).

(** [int(v)]: a number is truncated, a string is parsed, anything else
    is a TypeError; NaN is a ValueError and an infinity an
    OverflowError. *)
Inductive int_result :=
| IntOf (n : Z)
| IntValueError
| IntTypeError
| IntOverflowError.

Definition truncate (x : float) : int_result :=
  match x with
  | S754_zero _ => IntOf 0
  | S754_finite s m e =>
      let magnitude := if 0 <=? e then Z.pos m * 2 ^ e else Z.pos m / 2 ^ (- e) in
      IntOf (if s then - magnitude else magnitude)
  | S754_infinity _ => IntOverflowError
  | S754_nan => IntValueError
  end.

Section Validation.
Variable P : Platform.

Definition py_int (v : claim) : int_result :=
  match v with
  | CInt n => IntOf n
  | CBool b => IntOf (if b then 1 else 0)
  | CFloat x => truncate x
  | CStr s => match str_to_int P s with
              | Some n => IntOf n
              | None => IntValueError
              end
  | CNull | CList _ | CDict _ => IntTypeError
  end.

(** [int(claims[name])] inside [try ... except ValueError]: only the
    ValueError becomes a claims error. *)
Definition int_claim (claims : gmap string claim) (name msg : string)
  : res (option Z) :=
  match claims !! name with
  | None => Ok None
  | Some v =>
      match py_int v with
      | IntOf n => Ok (Some n)
      | IntValueError => Raise (JWTError msg)
      | IntTypeError => Raise (TypeError "int() argument must be a string or a number")
      | IntOverflowError =>
          Raise (OverflowError "cannot convert float infinity to integer")
      end
  end.

Definition validate_iat (claims : gmap string claim) : res unit :=
  bind (int_claim claims "iat" "Issued At claim (iat) must be an integer.")
       (fun _ => Ok tt).

Definition validate_nbf (claims : gmap string claim) (now : Z) : res unit :=
  bind (int_claim claims "nbf" "Not Before claim (nbf) must be an integer.")
       (fun nbf =>
          match nbf with
          | Some nbf =>
              if now <? nbf then Raise (JWTError "The token is not yet valid (nbf)")
              else Ok tt
          | None => Ok tt
          end).

Definition validate_exp (claims : gmap string claim) (now : Z) : res unit :=
  bind (int_claim claims "exp" "Expiration Time claim (exp) must be an integer.")
       (fun exp =>
          match exp with
          | Some exp =>
              if exp <? now then Raise (JWTError "Signature has expired.")
              else Ok tt
          | None => Ok tt
          end).

Definition is_str (v : claim) : bool :=
  match v with CStr _ => true | _ => false end.

(** No audience is given to [decode]: a token that names one is refused. *)
Definition validate_aud (claims : gmap string claim) : res unit :=
  match claims !! "aud" with
  | None => Ok tt
  | Some (CStr _) => Raise (JWTError "Invalid audience")
  | Some (CList items) =>
      if forallb is_str items then Raise (JWTError "Invalid audience")
      else Raise (JWTError "Invalid claim format in token")
  | Some _ => Raise (JWTError "Invalid claim format in token")
  end.

(** sub, when present, is a string *)
Definition validate_sub (claims : gmap string claim) : res unit :=
  match claims !! "sub" with
  | None | Some (CStr _) => Ok tt
  | Some _ => Raise (JWTError "Subject must be a string.")
  end.

Definition validate_jti (claims : gmap string claim) : res unit :=
  match claims !! "jti" with
  | None | Some (CStr _) => Ok tt
  | Some _ => Raise (JWTError "JWT ID must be a string.")
  end.

(** No access token is given to [decode]. *)
Definition validate_at_hash (claims : gmap string claim) : res unit :=
  match claims !! "at_hash" with
  | None => Ok tt
  | Some _ =>
      Raise (JWTError "No access_token provided to compare against at_hash claim.")
  end.

(** [_validate_claims]: iat, nbf, exp, aud, (iss: no issuer given,
    nothing to check,) sub, jti, at_hash, in this order. *)
Definition validate_claims (claims : gmap string claim) (now : Z) : res unit :=
  bind (validate_iat claims) (fun _ =>
  bind (validate_nbf claims now) (fun _ =>
  bind (validate_exp claims now) (fun _ =>
  bind (validate_aud claims) (fun _ =>
  bind (validate_sub claims) (fun _ =>
  bind (validate_jti claims) (fun _ =>
  validate_at_hash claims)))))).

(** [jwt.decode(token, key, algorithms=...)] at time [now] *)
Definition decode (tok : token) (key : string) (algorithms : list string)
           (now : Z) : res (gmap string claim) :=
  match tok with
  | Malformed _ => Raise (JWTError "Not enough segments")
  | Signed t =>
      if signature_ok t key algorithms then
        bind (validate_claims (jws_claims t) now) (fun _ => Ok (jws_claims t))
      else Raise (JWTError "Signature verification failed.")
  end.

(** *** Names used by the statements *)

(** Claim [name] is absent, or converts to an integer that satisfies
    [ok]. *)
Definition int_claim_is (claims : gmap string claim) (name : string)
           (ok : Z -> Prop) : Prop :=
  claims !! name = None \/
  exists v n, claims !! name = Some v /\ py_int v = IntOf n /\ ok n.

(** Claim [name] is absent or a string. *)
Definition str_claim (claims : gmap string claim) (name : string) : Prop :=
  claims !! name = None \/ exists s, claims !! name = Some (CStr s).

(** The claim sets [jwt.decode] lets through at time [now]. *)
Definition acceptable (claims : gmap string claim) (now : Z) : Prop :=
  int_claim_is claims "iat" (fun _ => True) /\
  int_claim_is claims "nbf" (fun nbf => nbf <= now) /\
  int_claim_is claims "exp" (fun exp => now <= exp) /\
  claims !! "aud" = None /\
  str_claim claims "sub" /\
  str_claim claims "jti" /\
  claims !! "at_hash" = None.

End Validation.

End Jose.

(** ** The service *)

Module App.

Import Jose.

(** *** Configuration *)

Definition SECRET_KEY : string := "your-secret-key".
Definition ALGORITHM : string := "HS256".
Definition ACCESS_TOKEN_EXPIRE_MINUTES : Z := 30.

(** [timedelta(minutes=n)], in seconds *)
Definition timedelta_minutes (n : Z) : Z := 60 * n.

(** *** The log table and the request monad *)

(** A row of table [logs]; [id] and [timestamp] are filled in by the
    store when the row is inserted. *)
Record LogEntry := {
  id : option Z;
  operation : string;
  result : string;
  timestamp : option Z
}.

(** What a request does, in order (ghost state). *)
Inductive event :=
| Computed (v : num)
| Committed (row : LogEntry)
| Emitted (line : string).

Record World := {
  logs : list LogEntry;
  trace : list event
}.

(** What a request finds around it: the clock, and whether the
    database accepts a commit. *)
Record Env := {
  utcnow : Z;
  db_up : bool
}.

Definition M (A : Type) : Type := Env -> World -> res A * World.

Definition ret {A} (a : A) : M A := fun _ w => (Ok a, w).

Definition raise {A} (e : exn) : M A := fun _ w => (Raise e, w).

Definition bindM {A B} (m : M A) (k : A -> M B) : M B :=
  fun env w =>
    match m env w with
    | (Ok a, w') => k a env w'
    | (Raise e, w') => (Raise e, w')
    end.

Declare Scope req_scope.
Delimit Scope req_scope with req.
Notation "x <- m ;; k" := (bindM m (fun x => k))
  (at level 100, m at next level, right associativity) : req_scope.
Notation "m ;;; k" := (bindM m (fun _ => k))
  (at level 100, right associativity) : req_scope.
Local Open Scope req_scope.

(** An expression of the handler body: its exception propagates, its
    value is a completed computation. *)
Definition eval (r : res num) : M num :=
  fun _ w =>
    match r with
    | Ok v => (Ok v, {| logs := logs w; trace := trace w ++ [Computed v] |})
    | Raise e => (Raise e, w)
    end.

(** *** The SQLAlchemy session *)

(** Objects added and not yet flushed. *)
Definition Session : Type := list LogEntry.

Definition SessionLocal : Session := [].

Definition db_add (db : Session) (row : LogEntry) : Session := db ++ [row].

Definition next_id (table : list LogEntry) : Z := Z.of_nat (length table) + 1.

Fixpoint flush (now : Z) (table : list LogEntry) (pending : Session)
  : list LogEntry :=
  match pending with
  | [] => []
  | row :: rest =>
      let stored := {| id := Some (next_id table);
                       operation := operation row;
                       result := result row;
                       timestamp := Some now |} in
      stored :: flush now (table ++ [stored]) rest
  end.

(** [db.commit()]: the pending rows reach the table, or the commit
    raises and nothing is stored. *)
Definition db_commit (db : Session) : M unit :=
  fun env w =>
    if db_up env then
      let stored := flush (utcnow env) (logs w) db in
      (Ok tt, {| logs := logs w ++ stored;
                 trace := trace w ++ map Committed stored |})
    else (Raise (OperationalError "commit failed"), w).

(** [logger.info(line)] *)
Definition logger_info (line : string) : M unit :=
  fun _ w => (Ok tt, {| logs := logs w; trace := trace w ++ [Emitted line] |}).

Section WithPlatform.
Variable P : Platform.

(** *** Auth setup *)

Record UserInDB := {
  db_username : string;
  hashed_password : string
}.

Definition fake_users_db : gmap string UserInDB :=
  {[ "testuser" := {| db_username := "testuser";
                      hashed_password := bcrypt_hash P "testpass" |} ]}.

Record Token := {
  access_token : token;
  token_type : string
}.

Record User := { username : string }.

(** *** Utils *)

Definition verify_password (plain_password hashed : string) : res bool :=
  pwd_context_verify P plain_password hashed.

(** [get_user]: falls off the end (None) when the name is no key. *)
Definition get_user (db : gmap string UserInDB) (name : claim) : option User :=
  match name with
  | CStr s => if bool_decide (s ∈ dom db) then Some {| username := s |} else None
  | _ => None
  end.

(** [authenticate_user]: [None] stands for the returned [False]; the
    password is verified only for a known name, and an exception of the
    verification is not caught. *)
Definition authenticate_user (name password : string) : res (option User) :=
  match fake_users_db !! name with
  | None => Ok None
  | Some user =>
      bind (verify_password password (hashed_password user)) (fun verified =>
      if negb verified then Ok None
      else Ok (Some {| username := name |}))
  end.

(** [expires_delta or timedelta(minutes=15)]: a zero delta is falsy. *)
Definition create_access_token (data : gmap string claim)
           (expires_delta : option Z) : M token :=
  fun env w =>
    let to_encode := data in
    let delta := match expires_delta with
                 | Some d => if d =? 0 then timedelta_minutes 15 else d
                 | None => timedelta_minutes 15
                 end in
    let expire := utcnow env + delta in
    let to_encode := <[ "exp" := CInt expire ]> to_encode in
    (Ok (encode to_encode SECRET_KEY ALGORITHM), w).

Definition credentials_exception : exn :=
  HTTPException 401 "Could not validate credentials".

Definition get_current_user (tok : token) : M (option User) :=
  fun env w =>
    match decode P tok SECRET_KEY [ALGORITHM] (utcnow env) with
    | Ok payload =>
        match payload !! "sub" with
        | None | Some CNull => (Raise credentials_exception, w)
        | Some name => (Ok (get_user fake_users_db name), w)
        end
    | Raise (JWTError _) => (Raise credentials_exception, w)
    | Raise e => (Raise e, w)
    end.

(** [oauth2_scheme]: the bearer token of the Authorization header;
    [None] when the header is missing or names another scheme. *)
Definition oauth2_scheme (authorization : option token) : M token :=
  match authorization with
  | Some tok => ret tok
  | None => raise (HTTPException 401 "Not authenticated")
  end.

(** *** Routes *)

Definition login (form_username form_password : string) : M Token :=
  match authenticate_user form_username form_password with
  | Raise e => raise e
  | Ok None => raise (HTTPException 400 "Incorrect username or password")
  | Ok (Some user) =>
      access_token <- create_access_token {[ "sub" := CStr (username user) ]} None;;
      ret {| access_token := access_token; token_type := "bearer" |}
  end.

Definition log_operation (db : Session) (operation result : string) : M unit :=
  let db_log := {| id := None; operation := operation;
                   result := result; timestamp := None |} in
  let db := db_add db db_log in
  db_commit db;;;
  logger_info (String.concat "" [operation; ": "; result]).

(** A handler's answer: the one-key dict it returns. *)
Definition response : Type := string * num.

Definition calc_sqrt (x : float) (user : option User) (db : Session) : M response :=
  result <- eval (bind (math_sqrt x) (fun r => Ok (Float r)));;
  log_operation db "SQRT" (str P result);;;
  ret ("sqrt", result).

Definition calc_cbrt (x : float) (user : option User) (db : Session) : M response :=
  result <- eval (float_pow P x one_third);;
  log_operation db "CBRT" (str P result);;;
  ret ("cbrt", result).

Definition calc_log (x : float) (user : option User) (db : Session) : M response :=
  result <- eval (bind (math_log10 P x) (fun r => Ok (Float r)));;
  log_operation db "LOG" (str P result);;;
  ret ("log10", result).

Definition calc_sin (x : float) (user : option User) (db : Session) : M response :=
  result <- eval (bind (math_sin P x) (fun r => Ok (Float r)));;
  log_operation db "SIN" (str P result);;;
  ret ("sin", result).

Definition calc_tan (x : float) (user : option User) (db : Session) : M response :=
  result <- eval (bind (math_tan P x) (fun r => Ok (Float r)));;
  log_operation db "TAN" (str P result);;;
  ret ("tan", result).

(** [(b**2 - a**2)/2]: operands left to right. *)
Definition integrate_expr (a b : float) : res num :=
  bind (float_pow P b two) (fun b2 =>
  bind (float_pow P a two) (fun a2 =>
  bind (num_sub b2 a2) (fun d =>
  num_truediv d (Float two)))).

Definition calc_integrate (a b : float) (user : option User) (db : Session)
  : M response :=
  result <- eval (integrate_expr a b);;
  log_operation db "INTEGRATION" (str P result);;;
  ret ("integration", result).

(** *** Dispatch: one request to a calculation route

    FastAPI resolves the dependencies in parameter order (the user,
    then the session) before it calls the handler. *)

Inductive call :=
| GetSqrt (x : float)
| GetCbrt (x : float)
| GetLog (x : float)
| GetSin (x : float)
| GetTan (x : float)
| GetIntegrate (a b : float).

Definition handler (c : call) : option User -> Session -> M response :=
  match c with
  | GetSqrt x => calc_sqrt x
  | GetCbrt x => calc_cbrt x
  | GetLog x => calc_log x
  | GetSin x => calc_sin x
  | GetTan x => calc_tan x
  | GetIntegrate a b => calc_integrate a b
  end.

(** [Depends(get_current_user)], itself depending on [oauth2_scheme] *)
Definition current_user (authorization : option token) : M (option User) :=
  tok <- oauth2_scheme authorization;;
  get_current_user tok.

(** [Depends(get_db)] hands the handler a fresh session (and closes it
    afterwards: nothing pending survives the request). *)
Definition get_db : Session := SessionLocal.

Definition serve (authorization : option token) (c : call) : M response :=
  user <- current_user authorization;;
  handler c user get_db.

(** Whether FastAPI can render a returned value as JSON: a finite
    float can; an infinity, NaN ([allow_nan=False]) or a complex number
    cannot, and the token of [login] always can. *)
Class Rendering (A : Type) := renders : A -> bool.

#[export] Instance response_rendering : Rendering response :=
  fun r => match snd r with
           | Float x => is_finite x
           | Complex _ _ => false
           end.

#[export] Instance token_rendering : Rendering Token := fun _ => true.

(** The status line of the answer to a well-formed request: an
    [HTTPException] carries its own, any other exception is an internal
    server error, and so is a returned value that cannot be rendered. *)
Definition status_code {A} `{Rendering A} (r : res A) : Z :=
  match r with
  | Ok a => if renders a then 200 else 500
  | Raise (HTTPException status _) => status
  | Raise _ => 500
  end.

(** *** Names used by the statements *)

(** The operation name each route passes to the logger. *)
Definition operation_name (c : call) : string :=
  match c with
  | GetSqrt _ => "SQRT"
  | GetCbrt _ => "CBRT"
  | GetLog _ => "LOG"
  | GetSin _ => "SIN"
  | GetTan _ => "TAN"
  | GetIntegrate _ _ => "INTEGRATION"
  end.

(** The key of the dict each route returns. *)
Definition response_key (c : call) : string :=
  match c with
  | GetSqrt _ => "sqrt"
  | GetCbrt _ => "cbrt"
  | GetLog _ => "log10"
  | GetSin _ => "sin"
  | GetTan _ => "tan"
  | GetIntegrate _ _ => "integration"
  end.

(** The expression each handler computes. *)
Definition computation (c : call) : res num :=
  match c with
  | GetSqrt x => bind (math_sqrt x) (fun r => Ok (Float r))
  | GetCbrt x => float_pow P x one_third
  | GetLog x => bind (math_log10 P x) (fun r => Ok (Float r))
  | GetSin x => bind (math_sin P x) (fun r => Ok (Float r))
  | GetTan x => bind (math_tan P x) (fun r => Ok (Float r))
  | GetIntegrate a b => integrate_expr a b
  end.

(** The row a route stores for value [v] at [env], after table [table]. *)
Definition audit_row (c : call) (v : num) (env : Env) (table : list LogEntry)
  : LogEntry :=
  {| id := Some (next_id table);
     operation := operation_name c;
     result := str P v;
     timestamp := Some (utcnow env) |}.

Definition audit_line (c : call) (v : num) : string :=
  String.concat "" [operation_name c; ": "; str P v].

(** A status in the 4xx range. *)
Definition client_error (status : Z) : bool := (400 <=? status) && (status <? 500).

End WithPlatform.

End App.

Import Jose App.

(** ** A platform to run the model on

    Enough of a platform to evaluate requests: [sin] and [tan] are
    computed for every double; [pow] is the rounded square at exponent 2
    (what a C library returns there up to its last bit, and an infinity
    once the square leaves the double range) and [log10] is tabulated at
    powers of ten, both NaN where they are not defined here; integral
    floats print as Python prints them; the password context keeps the
    password behind a prefix.  The theorems quantify over every platform
    and use this one for their examples only. *)

Module Demo.

Definition pow (x y : float) : float :=
  if eqb y two then mul x x
  else if eqb y one then x
  else nan.

Definition log10 (x : float) : float :=
  if eqb x one then zero
  else if eqb x (of_Z 10) then one
  else if eqb x (of_Z 100) then two
  else nan.

(** *** Sine and tangent

    The argument is reduced modulo [pi/2] with 420 decimal places of pi,
    sine and cosine are summed from their Taylor series in fixed point
    with 400 fractional bits, and the result is rounded once, to the
    nearest double. *)

(** The double nearest to the quotient [n / d] of two integers, [d > 0]. *)
Definition round_quotient (n d : Z) : float :=
  match n with
  | Z0 => zero
  | _ =>
      let k := 64 + Z.log2 d - Z.log2 (Z.abs n) in
      let num := Z.abs n * 2 ^ Z.max k 0 in
      let den := d * 2 ^ Z.max (- k) 0 in
      let r := num mod den in
      let l := if r =? 0 then loc_Exact else loc_Inexact (2 * r ?= den) in
      binary_round_aux prec emax (n <? 0) (num / den) (- k) l
  end.

(** Fixed point: a real [t] is held as the integer [t * 2^400]. *)
Definition scale : Z := 2 ^ 400.

(** Pi to 420 decimal places, times [10^420]. *)
Definition pi_digits : Z :=
  3141592653589793238462643383279502884197169399375105820974944592307816406286208998628034825342117067982148086513282306647093844609550582231725359408128481117450284102701938521105559644622948954930381964428810975665933446128475648233786783165271201909145648566923460348610454326648213393607260249141273724587006606315588174881520920962829254091715364367892590360011330530548820466521384146951941511609433057270365759591953.

(** [m * 2^e = k * (pi/2) + r] with [|r| <= pi/4]: [k], and [r] in fixed
    point. *)
Definition reduce (m e : Z) : Z * Z :=
  let n := m * 2 ^ Z.max e 0 in
  let d := 2 ^ Z.max (- e) 0 in
  let k := (4 * n * 10 ^ 420 + pi_digits * d) / (2 * pi_digits * d) in
  (k, (2 * n * 10 ^ 420 - k * pi_digits * d) * scale / (2 * 10 ^ 420 * d)).

(** [term - term r^2 / ((j+1) (j+2)) + ...], [fuel] terms *)
Fixpoint series (fuel : nat) (r2 term j : Z) : Z :=
  match fuel with
  | O => 0
  | S fuel =>
      term + series fuel r2 (- (term * r2 / scale) / ((j + 1) * (j + 2))) (j + 2)
  end.

Definition sin_poly (r : Z) : Z := series 14 (r * r / scale) r 1.
Definition cos_poly (r : Z) : Z := series 14 (r * r / scale) scale 0.

(** sine and cosine of [m * 2^e], in fixed point *)
Definition sin_cos (m e : Z) : Z * Z :=
  let '(k, r) := reduce m e in
  let s := sin_poly r in
  let c := cos_poly r in
  match k mod 4 with
  | 0 => (s, c)
  | 1 => (c, - s)
  | 2 => (- s, - c)
  | _ => (- c, s)
  end.

Definition signed (s : bool) (m : positive) : Z := if s then Z.neg m else Z.pos m.

(** Below [2^-27] the sine and the tangent of [x] round to [x]. *)
Definition tiny (m : positive) (e : Z) : bool := Z.log2 (Z.pos m) + e <? -27.

Definition sin (x : float) : float :=
  match x with
  | S754_zero _ => x
  | S754_finite s m e =>
      if tiny m e then x
      else round_quotient (fst (sin_cos (signed s m) e)) scale
  | _ => nan
  end.

Definition tan (x : float) : float :=
  match x with
  | S754_zero _ => x
  | S754_finite s m e =>
      if tiny m e then x
      else
        let '(t, c) := sin_cos (signed s m) e in
        if c <? 0 then round_quotient (- t) (- c) else round_quotient t c
  | _ => nan
  end.

Definition integral_value (x : float) : option Z :=
  match x with
  | S754_zero _ => Some 0
  | S754_finite s m e =>
      if is_integer x then
        let n := if 0 <=? e then Z.pos m * 2 ^ e else Z.pos m / 2 ^ (- e) in
        Some (if s then - n else n)
      else None
  | _ => None
  end.

Definition repr (x : float) : string :=
  match x with
  | S754_nan => "nan"
  | S754_infinity s => if s then "-inf" else "inf"
  | _ =>
      match integral_value x with
      | Some n =>
          String.append (if signbit x && (n =? 0) then "-" else "")
                        (String.append (pretty n) ".0")
      | None => "<float>"
      end
  end.

(** [int(s)] for a string: white space around, an optional sign, then
    decimal digits, single underscores allowed between digits. *)
Definition is_space (c : ascii) : bool :=
  let n := nat_of_ascii c in
  ((9 <=? n) && (n <=? 13))%nat || (n =? 32)%nat.

Fixpoint all_space (s : string) : bool :=
  match s with
  | EmptyString => true
  | String c rest => is_space c && all_space rest
  end.

Fixpoint digits (s : string) (acc : Z) (after_digit : bool) : option Z :=
  match s with
  | EmptyString => if after_digit then Some acc else None
  | String c rest =>
      let d := Z.of_nat (nat_of_ascii c) - 48 in
      if (0 <=? d) && (d <=? 9) then digits rest (10 * acc + d) true
      else if Ascii.eqb c "_"%char then
        if after_digit then digits rest acc false else None
      else if after_digit && all_space s then Some acc
      else None
  end.

Fixpoint decimal (s : string) : option Z :=
  match s with
  | EmptyString => None
  | String c rest =>
      if is_space c then decimal rest
      else if Ascii.eqb c "-"%char then option_map Z.opp (digits rest 0 false)
      else if Ascii.eqb c "+"%char then digits rest 0 false
      else digits s 0 false
  end.

Definition crepr (re im : float) : string :=
  String.concat "" ["("; repr re; "+"; repr im; "j)"].

Definition platform : Platform := {|
  c_pow := pow;
  c_log10 := log10;
  c_sin := sin;
  c_tan := tan;
  complex_pow := fun _ _ => (nan, nan);
  float_repr := repr;
  complex_repr := crepr;
  bcrypt_hash := fun password => String.append "$2b$" password;
  bcrypt_verify := fun password hashed =>
                     String.eqb hashed (String.append "$2b$" password);
  str_to_int := decimal
|}.

Definition world0 : World := {| logs := []; trace := [] |}.

Definition env_at (now : Z) : Env := {| utcnow := now; db_up := true |}.

Definition env_db_down (now : Z) : Env := {| utcnow := now; db_up := false |}.

(** The token [login] hands to testuser at time [now]. *)
Definition token_at (now : Z) : option token :=
  match login platform "testuser" "testpass" (env_at now) world0 with
  | (Ok t, _) => Some (access_token t)
  | _ => None
  end.

(** The literals [1e200], [-8.0] and [-1.0]. *)
Definition f_1e200 : float := of_Z (10 ^ 200).
Definition minus_eight : float := of_Z (-8).
Definition minus_one : float := of_Z (-1).

(** Tokens signed with the service's key by someone else. *)
Definition ghost_token : token :=
  encode {[ "sub" := CStr "ghost"; "exp" := CInt 2000 ]} SECRET_KEY ALGORITHM.

Definition anonymous_token : token :=
  encode {[ "exp" := CInt 2000 ]} SECRET_KEY ALGORITHM.

Definition numeric_subject_token : token :=
  encode {[ "sub" := CInt 42; "exp" := CInt 2000 ]} SECRET_KEY ALGORITHM.

(** An expiry given as a numeric string, and one given as null. *)
Definition string_expiry_token : token :=
  encode {[ "sub" := CStr "testuser"; "exp" := CStr "2000" ]}
         SECRET_KEY ALGORITHM.

Definition null_expiry_token : token :=
  encode {[ "sub" := CStr "testuser"; "exp" := CNull ]} SECRET_KEY ALGORITHM.

End Demo.

(** ** Requests one after the other

    The handlers never suspend between their first statement and their
    [return] ([log_operation] awaits nothing), so that the event loop runs
    each calculation request to its end before it starts the next. *)

Module Server.

Record request := {
  req_authorization : option token;
  req_call : call;
  req_env : Env
}.

Fixpoint run (P : Platform) (reqs : list request) (w : World)
  : list (res response) * World :=
  match reqs with
  | [] => ([], w)
  | r :: rest =>
      let '(answer, w1) :=
        serve P (req_authorization r) (req_call r) (req_env r) w in
      let '(answers, w2) := run P rest w1 in
      (answer :: answers, w2)
  end.

(** The requests whose handler returned: its [return] was reached and
    the row is stored. Whether the client then gets the value is up to
    its rendering. *)
Definition is_value (answer : res response) : bool :=
  match answer with Ok _ => true | Raise _ => false end.

Definition returned (answers : list (res response)) : nat :=
  length (List.filter is_value answers).

(** The values the handlers returned, in order. *)
Definition values (answers : list (res response)) : list response :=
  flat_map (fun answer => match answer with
                          | Ok r => [r]
                          | Raise _ => []
                          end) answers.

(** The requests answered with status 200. *)
Definition answered (answers : list (res response)) : nat :=
  length (List.filter (fun answer => status_code answer =? 200) answers).

End Server.

(** ** The music route *)

Module Music.

Definition MUSIC_FOLDER : string := "music".

(** What the route sees of the file system: [os.path.exists], and
    [open(path, "rb").read()], which fails with an OSError on what is not
    a readable file. *)
Record FileSystem := {
  path_exists : string -> bool;
  read_bytes : string -> option (list Byte.byte)
}.

(** [b.startswith("/")] and [a.endswith("/")] *)
Definition startswith_sep (b : string) : bool :=
  match b with
  | String c _ => Ascii.eqb c "/"%char
  | EmptyString => false
  end.

Fixpoint endswith_sep (a : string) : bool :=
  match a with
  | EmptyString => false
  | String c EmptyString => Ascii.eqb c "/"%char
  | String _ rest => endswith_sep rest
  end.

(** [os.path.join(a, b)] (posixpath) *)
Definition path_join (a b : string) : string :=
  if startswith_sep b then b
  else if String.eqb a "" || endswith_sep a then String.append a b
  else String.append a (String.append "/" b).

Inductive outcome :=
| Audio (content : list Byte.byte) (media_type : string)
| Http (e : exn)
| OSError (path : string).

Definition filename_of (track : string) : string := String.append track ".mp3".

Definition full_path_of (track : string) : string :=
  path_join MUSIC_FOLDER (filename_of track).

(** [get_music(track="track1")] *)
Definition get_music (fs : FileSystem) (track : option string) : outcome :=
  let track := match track with Some t => t | None => "track1" end in
  let filename := filename_of track in
  let full_path := path_join MUSIC_FOLDER filename in
  if negb (path_exists fs full_path) then
    Http (HTTPException 404
            (String.concat "" ["Music file '"; filename; "' not found."]))
  else
    match read_bytes fs full_path with
    | Some content => Audio content "audio/mpeg"
    | None => OSError full_path
    end.

End Music.

(** * Facts about the runtime *)

(** ** Float arithmetic: sign symmetry *)

Section Rounding.

Local Abbreviation bra := (binary_round_aux prec emax).

Lemma opp_involutive (x : float) : opp (opp x) = x.
Proof. destruct x as [s | s | | s m e]; cbn; now rewrite ?negb_involutive. Qed.

(** Rounding to nearest even ignores the sign. *)
Lemma binary_round_aux_negb (s : bool) (m e : Z) (l : location) :
  bra (negb s) m e l = SFopp (bra s m e l).
Proof.
  unfold binary_round_aux.
  destruct (shr_fexp prec emax m e l) as [mrs' e'].
  destruct (shr_fexp prec emax _ e' loc_Exact) as [mrs'' e''].
  destruct (shr_m mrs''); try reflexivity.
  destruct (e'' <=? emax - prec); reflexivity.
Qed.

Lemma binary_round_negb (s : bool) (m : positive) (e : Z) :
  binary_round prec emax (negb s) m e = SFopp (binary_round prec emax s m e).
Proof.
  unfold binary_round.
  destruct (shl_align m e _) as [mz ez]. apply binary_round_aux_negb.
Qed.

Lemma binary_normalize_opp (z e : Z) :
  z <> 0 ->
  binary_normalize prec emax (- z) e false
  = SFopp (binary_normalize prec emax z e false).
Proof.
  destruct z as [| p | p]; [congruence | |]; intros _; cbn [Z.opp binary_normalize].
  - apply (binary_round_negb false).
  - rewrite (binary_round_negb false). cbn [negb].
    symmetry. apply opp_involutive.
Qed.

(** [q - p] is the negation of [p - q], or both are [+0.0]. *)
Lemma sub_antisymmetric (p q : float) :
  is_finite p = true -> is_finite q = true ->
  sub q p = opp (sub p q) \/ (sub q p = zero /\ sub p q = zero).
Proof.
  destruct p as [sp | sp | | sp mp ep], q as [sq | sq | | sq mq eq];
    try discriminate; intros _ _.
  - destruct sp, sq; cbn; auto.
  - left. cbn. now rewrite negb_involutive.
  - left. reflexivity.
  - unfold sub, SFsub. rewrite (Z.min_comm ep eq).
    set (ez := Z.min eq ep).
    set (X := cond_Zopp sq (Z.pos (fst (shl_align mq eq ez)))).
    set (Y := cond_Zopp sp (Z.pos (fst (shl_align mp ep ez)))).
    destruct (Z.eq_dec (Y - X) 0) as [H0 | Hne].
    + right. replace (X - Y) with 0 by lia. rewrite H0. split; reflexivity.
    + left. replace (X - Y) with (- (Y - X)) by lia.
      now apply binary_normalize_opp.
Qed.

Lemma sub_diag (p : float) : is_finite p = true -> sub p p = zero.
Proof.
  destruct p as [s | s | | s m e]; try discriminate; intros _.
  - now destruct s.
  - unfold sub, SFsub. now rewrite Z.sub_diag.
Qed.

Lemma div_opp_l (x y : float) : div (opp x) y = opp (div x y).
Proof.
  destruct x as [sx | sx | | sx mx ex], y as [sy | sy | | sy my ey];
    cbn; try reflexivity; try (now destruct sx, sy).
  destruct (SFdiv_core_binary prec emax (Z.pos mx) ex (Z.pos my) ey) as [[mz ez] lz].
  replace (xorb (negb sx) sy) with (negb (xorb sx sy)) by now destruct sx, sy.
  apply binary_round_aux_negb.
Qed.

End Rounding.

(** ** Float arithmetic: no NaN out of finite operands *)

Section NoNaN.

Lemma iter_pos_invariant {A : Type} (f : A -> A) (Inv : A -> Prop) :
  (forall x, Inv x -> Inv (f x)) ->
  forall n x, Inv x -> Inv (SpecFloat.iter_pos f n x).
Proof.
  intros Hf. induction n as [n IH | n IH |]; intros x Hx; cbn; auto.
Qed.

Lemma shr_1_nonneg (mrs : shr_record) : 0 <= shr_m mrs -> 0 <= shr_m (shr_1 mrs).
Proof.
  destruct mrs as [m r s]. cbn [shr_m]. intros Hm.
  destruct m as [| [p | p |] | p]; cbn; lia.
Qed.

Lemma shr_fexp_nonneg (m e : Z) (l : location) :
  0 <= m -> 0 <= shr_m (fst (shr_fexp prec emax m e l)).
Proof.
  intros Hm. unfold shr_fexp, shr.
  assert (H0 : 0 <= shr_m (shr_record_of_loc m l))
    by (destruct l as [| []]; exact Hm).
  destruct (fexp prec emax (Zdigits2 m + e) - e) as [| n | n]; cbn [fst]; auto.
  apply iter_pos_invariant; auto using shr_1_nonneg.
Qed.

Lemma round_nearest_even_nonneg (m : Z) (l : location) :
  0 <= m -> 0 <= round_nearest_even m l.
Proof.
  intros Hm. destruct l as [| []]; cbn; try lia.
  destruct (Z.even m); lia.
Qed.

Lemma binary_round_aux_not_nan (s : bool) (m e : Z) (l : location) :
  0 <= m -> is_nan (binary_round_aux prec emax s m e l) = false.
Proof.
  intros Hm. unfold binary_round_aux.
  pose proof (shr_fexp_nonneg m e l Hm) as H1.
  destruct (shr_fexp prec emax m e l) as [mrs' e']. cbn [fst] in H1.
  pose proof (shr_fexp_nonneg _ e' loc_Exact
                (round_nearest_even_nonneg _ (loc_of_shr_record mrs') H1)) as H2.
  destruct (shr_fexp prec emax _ e' loc_Exact) as [mrs'' e'']. cbn [fst] in H2.
  destruct (shr_m mrs''); [reflexivity | | lia].
  destruct (e'' <=? emax - prec); reflexivity.
Qed.

Lemma sub_not_nan (p q : float) :
  is_finite p = true -> is_finite q = true -> is_nan (sub p q) = false.
Proof.
  destruct p as [sp | sp | | sp mp ep], q as [sq | sq | | sq mq eq];
    try discriminate; intros _ _; try reflexivity.
  - now destruct sp, sq.
  - unfold sub, SFsub.
    destruct (_ - _) as [| z | z]; cbn [binary_normalize]; [reflexivity | |];
      unfold binary_round; destruct (shl_align _ _ _) as [mz ez];
      now apply binary_round_aux_not_nan.
Qed.

Lemma div_two_not_nan (x : float) : is_nan x = false -> is_nan (div x two) = false.
Proof.
  destruct x as [s | s | | s m e]; try discriminate; intros _; try reflexivity.
  change two with (S754_finite false 4503599627370496 (-51)).
  unfold div, SFdiv.
  destruct (SFdiv_core_binary prec emax (Z.pos m) e 4503599627370496 (-51))
    as [[mz ez] lz] eqn:Hcore.
  apply binary_round_aux_not_nan.
  unfold SFdiv_core_binary in Hcore.
  destruct (Z.div_eucl _ _) as [q r] eqn:Hqr in Hcore.
  injection Hcore as <- _ _.
  match type of Hqr with Z.div_eucl ?a ?b = _ =>
    assert (Ha : 0 <= a); [| pose proof (Z.div_pos a b Ha ltac:(lia)) as Hq;
                              unfold Z.div in Hq; now rewrite Hqr in Hq]
  end.
  destruct (_ - _) as [| n | n]; try lia.
  rewrite Z.shiftl_mul_pow2 by lia. apply Z.mul_nonneg_nonneg; [lia |].
  apply Z.pow_nonneg. lia.
Qed.

Lemma eqb_refl_not_nan (x : float) : is_nan x = false -> eqb x x = true.
Proof.
  destruct x as [s | s | | s m e]; try discriminate; intros _;
    unfold eqb, SFeqb; cbn.
  - reflexivity.
  - now destruct s.
  - rewrite Z.compare_refl, Pos.compare_cont_refl. now destruct s.
Qed.

End NoNaN.

(** ** The square root is correctly rounded

    For a valid positive float [m * 2^e] the mantissa handed to the
    integer square root has 105 or 106 bits, its root [q] has exactly 53,
    and rounding moves [q] by at most one. *)

Section SquareRoot.

Lemma digits2_bounds (m : positive) :
  2 ^ (Z.pos (digits2_pos m) - 1) <= Z.pos m < 2 ^ Z.pos (digits2_pos m).
Proof.
  induction m as [m IH | m IH |]; cbn [digits2_pos].
  - rewrite Pos2Z.inj_succ, (Pos2Z.inj_xI m).
    replace (Z.succ (Z.pos (digits2_pos m)) - 1) with (Z.succ (Z.pos (digits2_pos m) - 1)) by lia.
    rewrite !Z.pow_succ_r by lia.
    destruct IH as [IH1 IH2]. revert IH1 IH2.
    generalize (2 ^ (Z.pos (digits2_pos m) - 1)) (2 ^ Z.pos (digits2_pos m)). lia.
  - rewrite Pos2Z.inj_succ, (Pos2Z.inj_xO m).
    replace (Z.succ (Z.pos (digits2_pos m)) - 1) with (Z.succ (Z.pos (digits2_pos m) - 1)) by lia.
    rewrite !Z.pow_succ_r by lia.
    destruct IH as [IH1 IH2]. revert IH1 IH2.
    generalize (2 ^ (Z.pos (digits2_pos m) - 1)) (2 ^ Z.pos (digits2_pos m)). lia.
  - cbn. lia.
Qed.

Lemma Zdigits2_unique (q k : Z) :
  2 ^ (k - 1) <= q < 2 ^ k -> 0 < k -> Zdigits2 q = k.
Proof.
  intros [Hlo Hhi] Hk.
  assert (Hq : 0 < q) by (pose proof (Z.pow_pos_nonneg 2 (k - 1)); lia).
  destruct q as [| p | p]; try lia. cbn [Zdigits2].
  pose proof (digits2_bounds p) as [Hl Hh].
  set (d := Z.pos (digits2_pos p)) in *.
  destruct (Z.lt_trichotomy d k) as [Hlt | [Heq | Hgt]]; [| exact Heq |].
  - assert (2 ^ d <= 2 ^ (k - 1)) by (apply Z.pow_le_mono_r; lia). lia.
  - assert (2 ^ k <= 2 ^ (d - 1)) by (apply Z.pow_le_mono_r; lia). lia.
Qed.

Lemma bounded_range (m : positive) (e : Z) :
  bounded prec emax m e = true ->
  Z.pos (digits2_pos m) <= 53 /\ -1074 <= e <= 971.
Proof.
  unfold bounded, canonical_mantissa, fexp, emin, prec, emax.
  intros H. apply andb_prop in H as [H1 H2].
  apply Z.eqb_eq in H1. apply Z.leb_le in H2. lia.
Qed.

Lemma sqrt_core_spec (mx : positive) (ex : Z) :
  bounded prec emax mx ex = true ->
  exists q r e' s,
    SFsqrt_core_binary prec emax (Z.pos mx) ex
    = (q, e', if r =? 0 then loc_Exact
              else loc_Inexact (if r <=? q then Lt else Gt)) /\
    0 <= s /\ ex = 2 * e' + s /\
    Z.pos mx * 2 ^ s = q * q + r /\ 0 <= r <= 2 * q /\
    2 ^ 52 <= q < 2 ^ 53 /\ -600 <= e' <= 460.
Proof.
  intros Hb. apply bounded_range in Hb as [Hd He].
  pose proof (digits2_bounds mx) as Hm.
  unfold SFsqrt_core_binary. cbn [Zdigits2].
  set (d := Z.pos (digits2_pos mx)) in *.
  assert (Hd0 : 0 < d) by (unfold d; lia).
  rewrite !Z.div2_div.
  set (t := (d + ex + 1) / 2).
  assert (Ht : 2 * t <= d + ex + 1 < 2 * t + 2)
    by (unfold t; pose proof (Z.div_mod (d + ex + 1) 2); pose proof (Z.mod_pos_bound (d + ex + 1) 2); lia).
  assert (He2 : 2 * (ex / 2) <= ex < 2 * (ex / 2) + 2)
    by (pose proof (Z.div_mod ex 2); pose proof (Z.mod_pos_bound ex 2); lia).
  replace (Z.min (fexp prec emax t) (ex / 2)) with (t - 53)
    by (unfold fexp, emin, prec, emax; lia).
  set (e' := t - 53).
  set (s := ex - 2 * e').
  assert (Hs : s = 105 - d \/ s = 106 - d) by (unfold s, e'; lia).
  assert (Hs0 : 52 <= s) by lia.
  destruct s as [| ps | ps] eqn:Hs_eq; try lia. rewrite <- Hs_eq in *.
  rewrite Z.shiftl_mul_pow2 by lia.
  set (m' := Z.pos mx * 2 ^ s).
  assert (Hm' : 2 ^ 104 <= m' < 2 ^ 106).
  { unfold m'. destruct Hs as [Hs | Hs].
    - assert (2 ^ 104 = 2 ^ (d - 1) * 2 ^ s) by (rewrite <- Z.pow_add_r by lia; f_equal; lia).
      assert (2 ^ 105 = 2 ^ d * 2 ^ s) by (rewrite <- Z.pow_add_r by lia; f_equal; lia).
      assert (0 < 2 ^ s) by (apply Z.pow_pos_nonneg; lia).
      nia.
    - assert (2 ^ 105 = 2 ^ (d - 1) * 2 ^ s) by (rewrite <- Z.pow_add_r by lia; f_equal; lia).
      assert (2 ^ 106 = 2 ^ d * 2 ^ s) by (rewrite <- Z.pow_add_r by lia; f_equal; lia).
      assert (0 < 2 ^ s) by (apply Z.pow_pos_nonneg; lia).
      nia. }
  pose proof (Z.sqrtrem_spec m' ltac:(lia)) as Hsq.
  destruct (Z.sqrtrem m') as [q r]. destruct Hsq as [Hqr Hr].
  exists q, r, e', s.
  split; [reflexivity |].
  split; [lia |]. split; [unfold s; lia |]. split; [exact Hqr |].
  split; [exact Hr |]. split; [| unfold e'; lia].
  change (2 ^ 52) with 4503599627370496.
  change (2 ^ 53) with 9007199254740992.
  change (2 ^ 104) with (4503599627370496 * 4503599627370496) in Hm'.
  change (2 ^ 106) with (9007199254740992 * 9007199254740992) in Hm'.
  nia.
Qed.

Lemma loc_roundtrip (m : Z) (l : location) :
  shr_m (shr_record_of_loc m l) = m /\
  loc_of_shr_record (shr_record_of_loc m l) = l.
Proof. destruct l as [| []]; split; reflexivity. Qed.

Lemma shr_fexp_53 (q e : Z) (l : location) :
  2 ^ 52 <= q < 2 ^ 53 -> -1074 <= e ->
  shr_fexp prec emax q e l = (shr_record_of_loc q l, e).
Proof.
  intros Hq He. unfold shr_fexp.
  rewrite (Zdigits2_unique q 53) by (change (53 - 1) with 52; lia).
  replace (fexp prec emax (53 + e) - e) with 0
    by (unfold fexp, emin, prec, emax; lia).
  reflexivity.
Qed.

Lemma round_to_finite (q e : Z) (l : location) :
  2 ^ 52 <= q < 2 ^ 53 -> -1074 <= e <= 970 ->
  exists m e',
    binary_round_aux prec emax false q e l = S754_finite false m e' /\
    e <= e' /\
    Z.pos m * 2 ^ (e' - e) = round_nearest_even q l.
Proof.
  intros Hq He. unfold binary_round_aux.
  rewrite shr_fexp_53 by lia.
  destruct (loc_roundtrip q l) as [-> ->].
  set (q1 := round_nearest_even q l).
  assert (Hq1 : q <= q1 <= q + 1).
  { unfold q1. destruct l as [| []]; cbn; try lia. destruct (Z.even q); lia. }
  destruct (Z.eq_dec q1 (2 ^ 53)) as [Heq | Hne].
  - rewrite Heq. unfold shr_fexp.
    change (Zdigits2 (2 ^ 53)) with 54.
    replace (fexp prec emax (54 + e) - e) with 1
      by (unfold fexp, emin, prec, emax; lia).
    cbn [shr shr_record_of_loc SpecFloat.iter_pos shr_1 Z.pow Z.pow_pos Pos.iter Z.mul Pos.mul orb shr_m].
    replace (e + 1 <=? emax - prec) with true
      by (symmetry; apply Z.leb_le; unfold emax, prec; lia).
    eexists _, _. split; [reflexivity |]. split; [lia |].
    replace (e + 1 - e) with 1 by lia. reflexivity.
  - rewrite shr_fexp_53 by lia. cbn [shr_m shr_record_of_loc].
    destruct q1 as [| m | m] eqn:Hm; try lia.
    replace (e <=? emax - prec) with true
      by (symmetry; apply Z.leb_le; unfold emax, prec; lia).
    exists m, e. split; [reflexivity |]. split; [lia |].
    rewrite Z.sub_diag. cbn [Z.pow]. lia.
Qed.

Lemma sqrt_spec_Z (mx : positive) (ex : Z) :
  bounded prec emax mx ex = true ->
  exists m e e0 k s,
    sqrt (S754_finite false mx ex) = S754_finite false m e /\
    0 <= k /\ e = e0 + k /\ 0 <= s /\ ex = e0 + e0 + s /\
    Z.abs ((Z.pos m * 2 ^ k) * (Z.pos m * 2 ^ k) - Z.pos mx * 2 ^ s) * 2 ^ 52
    <= Z.pos mx * 2 ^ s.
Proof.
  intros Hb.
  destruct (sqrt_core_spec mx ex Hb)
    as (q & r & e0 & s & Hcore & Hs & Hex & Hqr & Hr & Hq & He0).
  unfold sqrt. cbn [SFsqrt]. rewrite Hcore.
  destruct (round_to_finite q e0
              (if r =? 0 then loc_Exact
               else loc_Inexact (if r <=? q then Lt else Gt)) Hq ltac:(lia))
    as (m & e & Hround & Hle & Hval).
  exists m, e, e0, (e - e0), s.
  split; [exact Hround |].
  split; [lia |]. split; [lia |]. split; [exact Hs |]. split; [lia |].
  rewrite Hval, Hqr.
  change (2 ^ 52) with 4503599627370496 in *.
  change (2 ^ 53) with 9007199254740992 in *.
  destruct (Z.eqb_spec r 0) as [-> | Hr0]; cbn [round_nearest_even].
  - replace (q * q - (q * q + 0)) with 0 by lia. cbn [Z.abs]. nia.
  - destruct (Z.leb_spec r q) as [Hrq | Hrq]; cbn [round_nearest_even].
    + replace (q * q - (q * q + r)) with (- r) by lia.
      rewrite Z.abs_opp, Z.abs_eq by lia. nia.
    + replace ((q + 1) * (q + 1) - (q * q + r)) with (2 * q + 1 - r) by lia.
      rewrite Z.abs_eq by lia. nia.
Qed.

Lemma Qpower_2_pos (e : Z) : (0 < Qpower 2 e)%Q.
Proof. apply Qpower_0_lt. reflexivity. Qed.

Lemma Qpower_2_split (a k : Z) :
  0 <= k -> (Qpower 2 (a + k) == Qpower 2 a * inject_Z (2 ^ k))%Q.
Proof.
  intros Hk. rewrite Qpower_plus by discriminate.
  now rewrite (Zpower_Qpower 2 k Hk).
Qed.

Lemma sqrt_accuracy (mx : positive) (ex : Z) :
  bounded prec emax mx ex = true ->
  let x := S754_finite false mx ex in
  let v := sqrt x in
  (Qabs (to_Q v * to_Q v - to_Q x) * inject_Z (2 ^ 52) <= to_Q x)%Q.
Proof.
  intros Hb x v.
  destruct (sqrt_spec_Z mx ex Hb) as (m & e & e0 & k & s & Hv & Hk & He & Hs & Hex & Hbound).
  unfold v, x. rewrite Hv. cbn [to_Q]. rewrite !Qmult_1_l.
  rewrite He, Hex.
  rewrite (Qpower_2_split e0 k Hk), (Qpower_2_split (e0 + e0) s Hs).
  rewrite (Qpower_plus 2 e0 e0) by discriminate.
  set (W := Qpower 2 e0).
  assert (HW : (0 < W)%Q) by apply Qpower_2_pos.
  set (A := Z.pos m * 2 ^ k) in *.
  set (B := Z.pos mx * 2 ^ s) in *.
  assert (E1 : (inject_Z (Z.pos m) * (W * inject_Z (2 ^ k))
                * (inject_Z (Z.pos m) * (W * inject_Z (2 ^ k)))
                - inject_Z (Z.pos mx) * (W * W * inject_Z (2 ^ s))
                == inject_Z (A * A - B) * (W * W))%Q).
  { unfold A, B, Z.sub. rewrite inject_Z_plus, inject_Z_opp, !inject_Z_mult. ring. }
  rewrite E1.
  assert (E2 : (inject_Z (Z.pos mx) * (W * W * inject_Z (2 ^ s))
                == inject_Z B * (W * W))%Q).
  { unfold B. rewrite inject_Z_mult. ring. }
  rewrite E2.
  rewrite Qabs_Qmult.
  rewrite (Qabs_pos (W * W)) by (apply Qmult_le_0_compat; apply Qlt_le_weak; exact HW).
  change (Qabs (inject_Z (A * A - B))) with (inject_Z (Z.abs (A * A - B))).
  assert (E3 : (inject_Z (Z.abs (A * A - B)) * (W * W) * inject_Z (2 ^ 52)
                == inject_Z (Z.abs (A * A - B) * 2 ^ 52) * (W * W))%Q)
    by (rewrite inject_Z_mult; ring).
  rewrite E3.
  apply Qmult_le_compat_r.
  - rewrite <- Zle_Qle. exact Hbound.
  - apply Qmult_le_0_compat; apply Qlt_le_weak; exact HW.
Qed.

End SquareRoot.

(** ** Powers *)

Section Powers.
Variable P : Platform.

(** An integral exponent never takes the complex branch. *)
Lemma float_pow_two_is_float (x : float) (v : num) :
  float_pow P x two = Ok v -> exists p, v = Float p.
Proof.
  unfold float_pow.
  change (is_integer two) with true. cbn [negb]. rewrite andb_false_r.
  repeat match goal with
         | |- context [if ?b then _ else _] =>
             lazymatch b with
             | false => fail
             | _ => destruct b
             end
         end;
    intros H; try discriminate; injection H as <-; eauto.
Qed.

Lemma integrate_expr_floats (a b p q : float) :
  float_pow P a two = Ok (Float p) ->
  float_pow P b two = Ok (Float q) ->
  integrate_expr P a b = Ok (Float (div (sub q p) two)).
Proof.
  intros Ha Hb. unfold integrate_expr. now rewrite Hb, Ha.
Qed.

(** A negative base under a fractional exponent leaves the reals. *)
Lemma float_pow_negative_fractional (x : float) :
  is_finite x = true -> ltb x zero = true ->
  float_pow P x one_third
  = Ok (Complex (fst (complex_pow P x one_third)) (snd (complex_pow P x one_third))).
Proof.
  destruct x as [s | s | | s m e]; try discriminate; intros _.
  destruct s; [intros _ | discriminate].
  unfold float_pow.
  change (eqb one_third zero) with false.
  change (is_nan one_third) with false.
  change (is_inf one_third) with false.
  change (is_integer one_third) with false.
  cbn. now destruct (complex_pow P _ _).
Qed.

End Powers.

(** ** [math.sqrt] and [math.log10] *)

Lemma math_sqrt_negative (x : float) :
  ltb x zero = true -> math_sqrt x = Raise (ValueError "math domain error").
Proof.
  destruct x as [s | [] | | [] m e]; try discriminate; reflexivity.
Qed.

Lemma math_sqrt_nonnegative (x : float) :
  valid x = true -> leb zero x = true ->
  math_sqrt x = Ok (sqrt x) /\
  (is_finite x = true ->
   is_finite (sqrt x) = true /\
   (Qabs (to_Q (sqrt x) * to_Q (sqrt x) - to_Q x) * inject_Z (2 ^ 52) <= to_Q x)%Q).
Proof.
  destruct x as [s | [] | | [] m e]; try discriminate; intros Hvalid _.
  - split; [reflexivity |]. intros _. split; [reflexivity |]. discriminate.
  - split; [reflexivity |]. discriminate.
  - cbn [valid valid_binary] in Hvalid.
    destruct (sqrt_spec_Z m e Hvalid) as (m' & e' & _ & _ & _ & Hv & _).
    split.
    + unfold math_sqrt, math_1. now rewrite Hv.
    + intros _. split; [now rewrite Hv |]. now apply sqrt_accuracy.
Qed.

Section Log10.
Variable P : Platform.



End Log10.

(** ** Floats as real numbers, and powers of ten *)








(** The platform's sine and tangent at [1.0], as [math.sin] and
    [math.tan] give them: 0.8414709848078965 and 1.5574077246549023. *)
Example sin_tan_of_one :
  Demo.sin one = S754_finite false 7579296827247854 (-53) /\
  Demo.tan one = S754_finite false 7013940848419750 (-52).
Proof. split; vm_compute; reflexivity. Qed.

(** * Facts about requests *)

(** ** How a request runs *)

Section Running.
Variable P : Platform.

Lemma log_operation_run (op res : string) (env : Env) (w : World) :
  log_operation SessionLocal op res env w =
  if db_up env then
    let row := {| id := Some (next_id (logs w)); operation := op;
                  result := res; timestamp := Some (utcnow env) |} in
    (Ok tt, {| logs := logs w ++ [row];
               trace := trace w ++ [Committed row;
                                    Emitted (String.concat "" [op; ": "; res])] |})
  else (Raise (OperationalError "commit failed"), w).
Proof.
  unfold log_operation, bindM, db_commit, logger_info, db_add, SessionLocal.
  destruct (db_up env); simpl; [| reflexivity].
  now rewrite <- app_assoc.
Qed.

(** Every handler has the same shape: compute, log, answer. *)
Lemma handler_shape (c : call) (user : option User) :
  handler P c user SessionLocal =
  bindM (eval (computation P c)) (fun result =>
  bindM (log_operation SessionLocal (operation_name c) (str P result)) (fun _ =>
  ret (response_key c, result))).
Proof. destruct c; reflexivity. Qed.

Lemma handler_run (c : call) (user : option User) (env : Env) (w : World) :
  handler P c user SessionLocal env w =
  match computation P c with
  | Raise e => (Raise e, w)
  | Ok v =>
      if db_up env then
        let row := audit_row P c v env (logs w) in
        (Ok (response_key c, v),
         {| logs := logs w ++ [row];
            trace := trace w ++ [Computed v; Committed row; Emitted (audit_line P c v)] |})
      else
        (Raise (OperationalError "commit failed"),
         {| logs := logs w; trace := trace w ++ [Computed v] |})
  end.
Proof.
  rewrite handler_shape. unfold bindM at 1, eval.
  destruct (computation P c) as [v | e]; [| reflexivity].
  unfold bindM. rewrite log_operation_run. cbn [logs trace].
  destruct (db_up env); [| reflexivity].
  cbn [ret]. unfold audit_row, audit_line. cbn [logs trace].
  now rewrite <- app_assoc.
Qed.

(** The gate reads the token and the clock, and writes nothing. *)
Lemma get_current_user_world (tok : token) (env : Env) (w : World) :
  snd (get_current_user P tok env w) = w.
Proof.
  unfold get_current_user.
  destruct (decode P tok SECRET_KEY [ALGORITHM] (utcnow env)) as [payload | e].
  - destruct (payload !! "sub") as [[] |]; reflexivity.
  - destruct e; reflexivity.
Qed.

Lemma current_user_world (authorization : option token) (env : Env) (w : World) :
  snd (current_user P authorization env w) = w.
Proof.
  destruct authorization as [tok |]; [| reflexivity].
  unfold current_user, bindM, oauth2_scheme, ret.
  apply get_current_user_world.
Qed.

Lemma serve_run (authorization : option token) (c : call) (env : Env) (w : World) :
  serve P authorization c env w =
  match fst (current_user P authorization env w) with
  | Ok user => handler P c user SessionLocal env w
  | Raise e => (Raise e, w)
  end.
Proof.
  unfold serve, bindM at 1.
  pose proof (current_user_world authorization env w) as Hw.
  destruct (current_user P authorization env w) as [[user | e] w']; simpl in *;
    now subst.
Qed.

End Running.

(** ** The gate and the audit trail *)

(** What [jwt.decode] can raise: its own error, or what [int()] raises
    on a time claim that is no number. *)
Definition decode_error (e : exn) : Prop :=
  (exists msg, e = JWTError msg) \/
  (exists msg, e = TypeError msg) \/
  (exists msg, e = OverflowError msg).

Section Decoding.
Variable P : Platform.

Lemma bind_raises {A B} (r : res A) (k : A -> res B) (e : exn) :
  bind r k = Raise e -> r = Raise e \/ exists a, r = Ok a /\ k a = Raise e.
Proof. destruct r as [a | e']; cbn; [eauto | intros [= <-]; auto]. Qed.

Lemma int_claim_raises (claims : gmap string claim) (name msg : string) (e : exn) :
  int_claim P claims name msg = Raise e -> decode_error e.
Proof.
  unfold int_claim, decode_error.
  destruct (claims !! name) as [v |]; [| discriminate].
  destruct (py_int P v); intros [= <-]; eauto.
Qed.

Lemma validate_claims_raises (claims : gmap string claim) (now : Z) (e : exn) :
  validate_claims P claims now = Raise e -> decode_error e.
Proof.
  unfold validate_claims, validate_iat, validate_nbf, validate_exp.
  intros H.
  apply bind_raises in H as [H | ([] & _ & H)].
  { apply bind_raises in H as [H | (a & _ & H)]; [| discriminate].
    eapply int_claim_raises, H. }
  apply bind_raises in H as [H | ([] & _ & H)].
  { apply bind_raises in H as [H | (a & _ & H)];
      [eapply int_claim_raises, H |].
    destruct a as [nbf |]; [| discriminate].
    destruct (now <? nbf); [| discriminate].
    injection H as <-. left. eauto. }
  apply bind_raises in H as [H | ([] & _ & H)].
  { apply bind_raises in H as [H | (a & _ & H)];
      [eapply int_claim_raises, H |].
    destruct a as [exp |]; [| discriminate].
    destruct (exp <? now); [| discriminate].
    injection H as <-. left. eauto. }
  apply bind_raises in H as [H | ([] & _ & H)].
  { unfold validate_aud in H. left.
    destruct (claims !! "aud") as [[] |]; try discriminate;
      try (injection H as <-; eauto; fail).
    destruct (forallb is_str items); injection H as <-; eauto. }
  apply bind_raises in H as [H | ([] & _ & H)].
  { unfold validate_sub in H. left.
    destruct (claims !! "sub") as [[] |]; try discriminate;
      injection H as <-; eauto. }
  apply bind_raises in H as [H | ([] & _ & H)].
  { unfold validate_jti in H. left.
    destruct (claims !! "jti") as [[] |]; try discriminate;
      injection H as <-; eauto. }
  unfold validate_at_hash in H. left.
  destruct (claims !! "at_hash"); [injection H as <-; eauto | discriminate].
Qed.

Lemma decode_raises (tok : token) (key : string) (algs : list string)
      (now : Z) (e : exn) :
  decode P tok key algs now = Raise e -> decode_error e.
Proof.
  unfold decode.
  destruct tok as [raw | t]; [intros [= <-]; left; eauto |].
  destruct (signature_ok t key algs); [| intros [= <-]; left; eauto].
  intros H. apply bind_raises in H as [H | (a & _ & H)]; [| discriminate].
  eapply validate_claims_raises, H.
Qed.

Lemma int_claim_ok (claims : gmap string claim) (name msg : string)
      (r : option Z) :
  int_claim P claims name msg = Ok r <->
  (claims !! name = None /\ r = None) \/
  (exists v n, claims !! name = Some v /\ py_int P v = IntOf n /\ r = Some n).
Proof.
  unfold int_claim. destruct (claims !! name) as [v |].
  - destruct (py_int P v) as [n | | |] eqn:Hint; split;
      try discriminate;
      try (intros [[H _] | (v' & n' & H & Hn & _)]; [discriminate |];
           injection H as <-; congruence).
    + intros [= <-]. right. eauto.
    + intros [[H _] | (v' & n' & H & Hn & ->)]; [discriminate |].
      injection H as <-. congruence.
  - split.
    + intros [= <-]. now left.
    + intros [[_ ->] | (v' & n' & H & _)]; [reflexivity | discriminate].
Qed.

(** [jwt.decode] lets a claim set through exactly when it is
    [acceptable]. *)
Lemma validate_claims_ok (claims : gmap string claim) (now : Z) :
  validate_claims P claims now = Ok tt <-> acceptable P claims now.
Proof.
  unfold validate_claims, acceptable, int_claim_is, str_claim,
    validate_iat, validate_nbf, validate_exp, validate_aud, validate_sub,
    validate_jti, validate_at_hash.
  split.
  - intros H.
    destruct (int_claim P claims "iat" _) as [iat |] eqn:Hiat; [| discriminate].
    apply int_claim_ok in Hiat. cbn [bind] in H.
    destruct (int_claim P claims "nbf" _) as [nbf |] eqn:Hnbf; [| discriminate].
    apply int_claim_ok in Hnbf. cbn [bind] in H.
    assert (Hnbf' : claims !! "nbf" = None \/
                    exists v n, claims !! "nbf" = Some v /\
                                py_int P v = IntOf n /\ n <= now).
    { destruct Hnbf as [[Hn _] | (v & n & Hv & Hn & ->)]; [now left |].
      right. exists v, n. repeat split; try assumption.
      destruct (Z.ltb_spec now n); [discriminate | lia]. }
    assert (H1 : bind (int_claim P claims "exp"
                         "Expiration Time claim (exp) must be an integer.")
                   (fun exp => match exp with
                               | Some exp =>
                                   if exp <? now
                                   then Raise (JWTError "Signature has expired.")
                                   else Ok tt
                               | None => Ok tt
                               end) = Ok tt /\
                 bind (match claims !! "aud" with
                       | None => Ok tt
                       | Some (CStr _) => Raise (JWTError "Invalid audience")
                       | Some (CList items) =>
                           if forallb is_str items
                           then Raise (JWTError "Invalid audience")
                           else Raise (JWTError "Invalid claim format in token")
                       | Some _ => Raise (JWTError "Invalid claim format in token")
                       end)
                   (fun _ =>
                    bind (match claims !! "sub" with
                          | None | Some (CStr _) => Ok tt
                          | Some _ => Raise (JWTError "Subject must be a string.")
                          end)
                      (fun _ =>
                       bind (match claims !! "jti" with
                             | None | Some (CStr _) => Ok tt
                             | Some _ => Raise (JWTError "JWT ID must be a string.")
                             end)
                         (fun _ =>
                          match claims !! "at_hash" with
                          | None => Ok tt
                          | Some _ =>
                              Raise (JWTError "No access_token provided to compare against at_hash claim.")
                          end))) = Ok tt).
    { destruct nbf as [nbf |]; [destruct (now <? nbf); [discriminate |] |];
        cbn [bind] in H;
        (destruct (bind (int_claim P claims "exp" _) _) as [[] |];
         [split; [reflexivity | exact H] | discriminate]). }
    clear H. destruct H1 as [Hexp H].
    destruct (int_claim P claims "exp" _) as [exp |] eqn:Hexp0; [| discriminate].
    apply int_claim_ok in Hexp0. cbn [bind] in Hexp.
    assert (Hexp' : claims !! "exp" = None \/
                    exists v n, claims !! "exp" = Some v /\
                                py_int P v = IntOf n /\ now <= n).
    { destruct Hexp0 as [[Hn _] | (v & n & Hv & Hn & ->)]; [now left |].
      right. exists v, n. repeat split; try assumption.
      destruct (Z.ltb_spec n now); [discriminate | lia]. }
    destruct (claims !! "aud") as [[] |] eqn:Haud; try discriminate;
      [destruct (forallb is_str items); discriminate |].
    cbn [bind] in H.
    destruct (claims !! "sub") as [[] |] eqn:Hsub; try discriminate;
      cbn [bind] in H;
      (destruct (claims !! "jti") as [[] |] eqn:Hjti; try discriminate;
       cbn [bind] in H;
       (destruct (claims !! "at_hash") eqn:Hat; [discriminate |]));
      (split; [destruct Hiat as [[Hn _] | (v & n & Hv & Hn & _)];
               [now left | right; eauto] |]);
      repeat split; eauto.
  - intros (Hiat & Hnbf & Hexp & Haud & Hsub & Hjti & Hat).
    assert (E1 : exists r, int_claim P claims "iat"
                             "Issued At claim (iat) must be an integer." = Ok r).
    { destruct Hiat as [Hn | (v & n & Hv & Hn & _)];
        eexists; apply int_claim_ok; [left | right]; eauto. }
    destruct E1 as [r1 ->]. cbn [bind].
    assert (E2 : bind (int_claim P claims "nbf"
                         "Not Before claim (nbf) must be an integer.")
                   (fun nbf => match nbf with
                               | Some nbf =>
                                   if now <? nbf
                                   then Raise (JWTError "The token is not yet valid (nbf)")
                                   else Ok tt
                               | None => Ok tt
                               end) = Ok tt).
    { destruct Hnbf as [Hn | (v & n & Hv & Hn & Hle)].
      - replace (int_claim P claims "nbf" _) with (@Ok (option Z) None)
          by (symmetry; apply int_claim_ok; now left).
        reflexivity.
      - replace (int_claim P claims "nbf" _) with (@Ok (option Z) (Some n))
          by (symmetry; apply int_claim_ok; right; eauto).
        cbn [bind]. destruct (Z.ltb_spec now n); [lia | reflexivity]. }
    rewrite E2. cbn [bind].
    assert (E3 : bind (int_claim P claims "exp"
                         "Expiration Time claim (exp) must be an integer.")
                   (fun exp => match exp with
                               | Some exp =>
                                   if exp <? now
                                   then Raise (JWTError "Signature has expired.")
                                   else Ok tt
                               | None => Ok tt
                               end) = Ok tt).
    { destruct Hexp as [Hn | (v & n & Hv & Hn & Hle)].
      - replace (int_claim P claims "exp" _) with (@Ok (option Z) None)
          by (symmetry; apply int_claim_ok; now left).
        reflexivity.
      - replace (int_claim P claims "exp" _) with (@Ok (option Z) (Some n))
          by (symmetry; apply int_claim_ok; right; eauto).
        cbn [bind]. destruct (Z.ltb_spec n now); [lia | reflexivity]. }
    rewrite E3, Haud, Hat. cbn [bind].
    destruct Hsub as [-> | [s ->]], Hjti as [-> | [s' ->]]; reflexivity.
Qed.

Lemma decode_ok (tok : token) (key : string) (algs : list string) (now : Z)
      (payload : gmap string claim) :
  decode P tok key algs now = Ok payload <->
  exists t, tok = Signed t /\ payload = jws_claims t /\
            jws_key t = key /\ jws_alg t ∈ algs /\
            acceptable P payload now.
Proof.
  unfold decode, signature_ok. split.
  - destruct tok as [raw | t]; [discriminate |].
    destruct (bool_decide (jws_key t = key)) eqn:Hkey; [| discriminate].
    destruct (bool_decide (jws_alg t ∈ algs)) eqn:Halg; [| discriminate].
    apply bool_decide_eq_true_1 in Hkey. apply bool_decide_eq_true_1 in Halg.
    cbn [andb].
    destruct (validate_claims P (jws_claims t) now) as [[] |] eqn:Hval;
      [| discriminate].
    intros [= <-]. exists t.
    split; [reflexivity |]. split; [reflexivity |].
    split; [assumption |]. split; [assumption |].
    now apply validate_claims_ok.
  - intros (t & -> & -> & Hkey & Halg & Hacc).
    rewrite bool_decide_eq_true_2 by assumption.
    rewrite bool_decide_eq_true_2 by assumption. cbn [andb].
    apply validate_claims_ok in Hacc. now rewrite Hacc.
Qed.

(** A claim set with a string subject, an integer expiry and nothing
    else, as [login] mints it. *)
Lemma validate_minted_claims (name : string) (exp now : Z) :
  validate_claims P (<[ "exp" := CInt exp ]> {[ "sub" := CStr name ]}) now
  = if exp <? now then Raise (JWTError "Signature has expired.") else Ok tt.
Proof.
  unfold validate_claims, validate_iat, validate_nbf, validate_exp,
    validate_aud, validate_sub, validate_jti, validate_at_hash, int_claim.
  rewrite lookup_insert_eq.
  rewrite !lookup_insert_ne by discriminate.
  rewrite lookup_singleton_eq.
  rewrite !lookup_singleton_ne by discriminate.
  cbn [bind py_int]. now destruct (exp <? now).
Qed.

(** Setting an integer [exp] on claims that are otherwise in order: the
    expiry decides. *)
Lemma validate_claims_with_exp (claims : gmap string claim) (exp now : Z) :
  acceptable P (delete "exp" claims) now ->
  validate_claims P (<[ "exp" := CInt exp ]> claims) now
  = if exp <? now then Raise (JWTError "Signature has expired.") else Ok tt.
Proof.
  intros (Hiat & Hnbf & _ & Haud & Hsub & Hjti & Hat).
  unfold int_claim_is, str_claim in *.
  rewrite !lookup_delete_ne in * by discriminate.
  destruct (Z.ltb_spec exp now) as [Hlt | Hge].
  - assert (Eiat : validate_iat P (<[ "exp" := CInt exp ]> claims) = Ok tt).
    { unfold validate_iat, int_claim.
      rewrite lookup_insert_ne by discriminate.
      destruct Hiat as [-> | (v & n & -> & -> & _)]; reflexivity. }
    assert (Enbf : validate_nbf P (<[ "exp" := CInt exp ]> claims) now = Ok tt).
    { unfold validate_nbf, int_claim.
      rewrite lookup_insert_ne by discriminate.
      destruct Hnbf as [-> | (v & n & -> & -> & Hle)]; [reflexivity |].
      cbn [bind]. destruct (Z.ltb_spec now n); [lia | reflexivity]. }
    unfold validate_claims. rewrite Eiat, Enbf. cbn [bind].
    unfold validate_exp, int_claim. rewrite lookup_insert_eq. cbn [py_int bind].
    destruct (Z.ltb_spec exp now); [reflexivity | lia].
  - apply validate_claims_ok. unfold acceptable, int_claim_is, str_claim.
    rewrite lookup_insert_eq.
    rewrite !lookup_insert_ne by discriminate.
    split; [assumption |]. split; [assumption |].
    split; [right; exists (CInt exp), exp; auto |].
    repeat (split; [assumption |]). assumption.
Qed.

End Decoding.

Section Gate.
Variable P : Platform.

(** The gate fails with a 401, or with what [int()] raised inside
    [jwt.decode], which [except JWTError] does not catch. *)
Lemma current_user_failure (authorization : option token) (env : Env)
      (w : World) (e : exn) :
  fst (current_user P authorization env w) = Raise e ->
  (exists detail, e = HTTPException 401 detail) \/
  (exists msg, e = TypeError msg) \/
  (exists msg, e = OverflowError msg).
Proof.
  destruct authorization as [tok |]; cbn.
  - unfold current_user, bindM, oauth2_scheme, ret, get_current_user.
    destruct (decode P tok SECRET_KEY [ALGORITHM] (utcnow env))
      as [payload | e'] eqn:Hdec.
    + destruct (payload !! "sub") as [[] |]; cbn; intros H;
        try discriminate; injection H as <-; left; eexists; reflexivity.
    + apply decode_raises in Hdec as [[msg ->] | [[msg ->] | [msg ->]]]; cbn;
        intros H; injection H as <-; eauto.
  - intros H; injection H as <-. eauto.
Qed.

End Gate.

(** ** Outcomes of a request that passed the gate *)

Section Outcomes.
Variable P : Platform.

Lemma serve_returns (authorization : option token) (c : call) (env : Env)
      (w : World) (user : option User) (v : num) :
  fst (current_user P authorization env w) = Ok user ->
  db_up env = true ->
  computation P c = Ok v ->
  fst (serve P authorization c env w) = Ok (response_key c, v).
Proof.
  intros Hgate Hdb Hv. now rewrite serve_run, Hgate, handler_run, Hv, Hdb.
Qed.

Lemma serve_raises (authorization : option token) (c : call) (env : Env)
      (w : World) (user : option User) (e : exn) :
  fst (current_user P authorization env w) = Ok user ->
  computation P c = Raise e ->
  serve P authorization c env w = (Raise e, w).
Proof.
  intros Hgate He. now rewrite serve_run, Hgate, handler_run, He.
Qed.

End Outcomes.

(** ** What a login returns *)

Lemma login_returns (P : Platform) (name password : string) (env : Env)
      (w w' : World) (t : Token) :
  login P name password env w = (Ok t, w') ->
  is_Some (fake_users_db P !! name) /\
  w' = w /\
  t = {| access_token :=
           encode (<[ "exp" := CInt (utcnow env + 900) ]>
                     {[ "sub" := CStr name ]}) SECRET_KEY ALGORITHM;
         token_type := "bearer" |}.
Proof.
  unfold login, authenticate_user.
  destruct (fake_users_db P !! name) as [rec |] eqn:Hdb; [| discriminate].
  destruct (verify_password P password (hashed_password rec)) as [[] | e];
    cbn; try discriminate.
  unfold bindM, create_access_token, ret. intros [= <- <-]. eauto.
Qed.

(** ** From login to the gate

    On a platform whose password context accepts the password it hashed,
    the token handed to testuser opens the gate until it expires, and
    not after. *)

Section IssuedToken.
Variable P : Platform.
Hypothesis testpass_verifies :
  bcrypt_verify P "testpass" (bcrypt_hash P "testpass") = true.

Lemma login_testuser (env : Env) (w : World) :
  login P "testuser" "testpass" env w
  = (Ok {| access_token :=
             encode (<[ "exp" := CInt (utcnow env + 900) ]>
                       {[ "sub" := CStr "testuser" ]})
                    SECRET_KEY ALGORITHM;
           token_type := "bearer" |}, w).
Proof.
  unfold login, authenticate_user, fake_users_db.
  rewrite lookup_singleton_eq. cbn [hashed_password].
  unfold verify_password, pwd_context_verify.
  change (MAX_PASSWORD_SIZE <? Z.of_nat (String.length "testpass")) with false.
  change (has_nul "testpass") with false. cbv iota.
  rewrite testpass_verifies. reflexivity.
Qed.

Lemma issued_token_until_expiry (issued now : Z) (up : bool) (w : World) :
  let tok := encode (<[ "exp" := CInt (issued + 900) ]>
                       {[ "sub" := CStr "testuser" ]}) SECRET_KEY ALGORITHM in
  let env := {| utcnow := now; db_up := up |} in
  fst (current_user P (Some tok) env w)
  = if issued + 900 <? now
    then Raise credentials_exception
    else Ok (Some {| username := "testuser" |}).
Proof.
  cbn zeta.
  unfold current_user, bindM, oauth2_scheme, ret, get_current_user, decode,
    encode.
  cbn [jws_claims utcnow].
  replace (signature_ok _ SECRET_KEY [ALGORITHM]) with true by reflexivity.
  rewrite validate_minted_claims.
  destruct (issued + 900 <? now); [reflexivity |]. cbn [bind].
  rewrite lookup_insert_ne by discriminate.
  rewrite lookup_singleton_eq. reflexivity.
Qed.

End IssuedToken.

(** The scenario of the specification: log in, then GET /sqrt?x=16. *)
Example sqrt_16_scenario :
  serve Demo.platform (Demo.token_at 1000) (GetSqrt (of_Z 16)) (Demo.env_at 1060) Demo.world0
  = (Ok ("sqrt", Float (of_Z 4)),
     let row := {| id := Some 1; operation := "SQRT"; result := "4.0";
                   timestamp := Some 1060 |} in
     {| logs := [row];
        trace := [Computed (Float (of_Z 4)); Committed row; Emitted "SQRT: 4.0"] |}).
Proof. vm_compute. reflexivity. Qed.

(** * The claims *)

(** C1 as stated fails: a request can pass the gate and complete its
    computation while the commit of its audit row fails; it then leaves
    no row at all. *)
Lemma audit_lost_counterexample :
  fst (current_user Demo.platform (Demo.token_at 1000) (Demo.env_db_down 1060)
                    Demo.world0)
  = Ok (Some {| username := "testuser" |})
  /\
  computation Demo.platform (GetSqrt (of_Z 16)) = Ok (Float (of_Z 4))
  /\
  snd (serve Demo.platform (Demo.token_at 1000) (GetSqrt (of_Z 16))
             (Demo.env_db_down 1060) Demo.world0)
  = {| logs := []; trace := [Computed (Float (of_Z 4))] |}.
Proof. repeat split; vm_compute; reflexivity. Qed.

(** C1 (amended). For each of the six calculation routes: when the
    bearer-token gate fails, the request ends with the gate's exception
    (its 401, or the 500 of a TypeError or OverflowError that [int()]
    raised inside [jwt.decode]) and leaves the world as it was (nothing
    computed, no row); when the gate
    passes, the computation completes with [v] and the commit succeeds,
    the request returns [v] after exactly one row was appended to the log
    table, carrying the route's operation name and the text of [v]:
    computed first, then committed, then emitted; and a request never adds
    a row in any other way. *)
Theorem audit_exactly_once (P : Platform) (authorization : option token)
        (c : call) (env : Env) (w : World) :
  (forall e, fst (current_user P authorization env w) = Raise e ->
     serve P authorization c env w = (Raise e, w) /\
     ((status_code (fst (serve P authorization c env w)) = 401 /\
       exists detail, e = HTTPException 401 detail) \/
      (status_code (fst (serve P authorization c env w)) = 500 /\
       exists msg, e = TypeError msg \/ e = OverflowError msg)))
  /\
  (forall user v,
     fst (current_user P authorization env w) = Ok user ->
     computation P c = Ok v ->
     db_up env = true ->
     exists row,
       serve P authorization c env w
       = (Ok (response_key c, v),
          {| logs := logs w ++ [row];
             trace := trace w ++ [Computed v; Committed row;
                                  Emitted (audit_line P c v)] |}) /\
       operation row = operation_name c /\
       result row = str P v)
  /\
  (logs (snd (serve P authorization c env w)) = logs w \/
   exists user v,
     fst (current_user P authorization env w) = Ok user /\
     computation P c = Ok v /\
     db_up env = true /\
     logs (snd (serve P authorization c env w))
     = logs w ++ [audit_row P c v env (logs w)]).
Proof.
  rewrite serve_run. split; [| split].
  - intros e He. rewrite He. split; [reflexivity |].
    apply current_user_failure in He as [[d ->] | [[msg ->] | [msg ->]]]; cbn;
      eauto 6.
  - intros user v Hgate Hv Hdb.
    rewrite Hgate, handler_run, Hv, Hdb.
    exists (audit_row P c v env (logs w)). repeat split.
  - destruct (fst (current_user P authorization env w)) as [user | e];
      [| now left].
    rewrite handler_run.
    destruct (computation P c) as [v | e]; [| now left].
    destruct (db_up env); [| now left].
    right. exists user, v. repeat split.
Qed.

Lemma audit_exactly_once_witness :
  serve Demo.platform None (GetSqrt (of_Z 16)) (Demo.env_at 1060) Demo.world0
  = (Raise (HTTPException 401 "Not authenticated"), Demo.world0)
  /\
  exists row,
    serve Demo.platform (Demo.token_at 1000) (GetSqrt (of_Z 16))
          (Demo.env_at 1060) Demo.world0
    = (Ok ("sqrt", Float (of_Z 4)),
       {| logs := [row];
          trace := [Computed (Float (of_Z 4)); Committed row;
                    Emitted "SQRT: 4.0"] |}) /\
    operation row = "SQRT" /\
    result row = "4.0".
Proof.
  split.
  - apply (audit_exactly_once Demo.platform None (GetSqrt (of_Z 16))
                              (Demo.env_at 1060) Demo.world0).
    reflexivity.
  - destruct (audit_exactly_once Demo.platform (Demo.token_at 1000)
                (GetSqrt (of_Z 16)) (Demo.env_at 1060) Demo.world0)
      as (_ & H & _).
    destruct (H (Some {| username := "testuser" |}) (Float (of_Z 4)))
      as (row & Hserve & Hop & Hres); [vm_compute; reflexivity .. |].
    exists row. split; [exact Hserve | split; [exact Hop | exact Hres]].
Defined.

(** C2 as stated fails: for [x = -1.0] the answer is a server error. *)
Lemma sqrt_negative_counterexample :
  serve Demo.platform (Demo.token_at 1000) (GetSqrt Demo.minus_one)
        (Demo.env_at 1060) Demo.world0
  = (Raise (ValueError "math domain error"), Demo.world0)
  /\
  client_error (status_code (fst (serve Demo.platform (Demo.token_at 1000)
                                        (GetSqrt Demo.minus_one)
                                        (Demo.env_at 1060) Demo.world0)))
  = false.
Proof. split; vm_compute; reflexivity. Qed.

(** C2 (amended). For an authenticated request GET /sqrt?x: when
    [x < 0], [math.sqrt] raises its domain error, nothing catches it, and
    the request ends as a 500 with nothing computed and nothing logged;
    when [x >= 0] and the audit row is stored, the answer is
    [{sqrt: v}] with [v] the correctly rounded root, and for finite [x]
    the square of [v] is within [x * 2^-52] of [x]. *)
Theorem sqrt_route (P : Platform) (authorization : option token) (env : Env)
        (w : World) (user : option User) (x : float) :
  valid x = true ->
  fst (current_user P authorization env w) = Ok user ->
  (ltb x zero = true ->
     serve P authorization (GetSqrt x) env w
     = (Raise (ValueError "math domain error"), w) /\
     status_code (fst (serve P authorization (GetSqrt x) env w)) = 500)
  /\
  (leb zero x = true -> db_up env = true ->
     fst (serve P authorization (GetSqrt x) env w) = Ok ("sqrt", Float (sqrt x)) /\
     (is_finite x = true ->
        is_finite (sqrt x) = true /\
        (Qabs (to_Q (sqrt x) * to_Q (sqrt x) - to_Q x) * inject_Z (2 ^ 52)
         <= to_Q x)%Q)).
Proof.
  intros Hvalid Hgate. split.
  - intros Hneg.
    assert (Hserve : serve P authorization (GetSqrt x) env w
                     = (Raise (ValueError "math domain error"), w)).
    { apply (serve_raises P _ _ _ _ user _ Hgate).
      cbn [computation]. now rewrite math_sqrt_negative. }
    now rewrite Hserve.
  - intros Hpos Hdb.
    destruct (math_sqrt_nonnegative x Hvalid Hpos) as [Hsqrt Hacc].
    split; [| exact Hacc].
    apply (serve_returns P authorization (GetSqrt x) env w user _ Hgate Hdb).
    cbn [computation]. now rewrite Hsqrt.
Qed.

Lemma sqrt_route_witness :
  serve Demo.platform (Demo.token_at 1000) (GetSqrt Demo.minus_one)
        (Demo.env_at 1060) Demo.world0
  = (Raise (ValueError "math domain error"), Demo.world0)
  /\
  fst (serve Demo.platform (Demo.token_at 1000) (GetSqrt (of_Z 16))
             (Demo.env_at 1060) Demo.world0)
  = Ok ("sqrt", Float (sqrt (of_Z 16)))
  /\
  (Qabs (to_Q (sqrt (of_Z 2)) * to_Q (sqrt (of_Z 2)) - to_Q (of_Z 2))
   * inject_Z (2 ^ 52) <= to_Q (of_Z 2))%Q.
Proof.
  split; [| split].
  - apply (sqrt_route Demo.platform (Demo.token_at 1000) (Demo.env_at 1060)
             Demo.world0 (Some {| username := "testuser" |}) Demo.minus_one);
      vm_compute; reflexivity.
  - apply (sqrt_route Demo.platform (Demo.token_at 1000) (Demo.env_at 1060)
             Demo.world0 (Some {| username := "testuser" |}) (of_Z 16));
      vm_compute; reflexivity.
  - apply (sqrt_route Demo.platform (Demo.token_at 1000) (Demo.env_at 1060)
             Demo.world0 (Some {| username := "testuser" |}) (of_Z 2));
      vm_compute; reflexivity.
Defined.

(** C3 (as the code has it). A token minted by POST /token expires 15
    minutes after it is issued: [login] calls [create_access_token]
    without a delta, so that the default applies and
    [ACCESS_TOKEN_EXPIRE_MINUTES = 30] is never used. *)
Theorem login_token_expires_after_15_minutes (P : Platform)
        (name password : string) (env : Env) (w w' : World) (t : Token) :
  login P name password env w = (Ok t, w') ->
  exists claims,
    access_token t = encode claims SECRET_KEY ALGORITHM /\
    claims !! "sub" = Some (CStr name) /\
    claims !! "exp" = Some (CInt (utcnow env + 15 * 60)) /\
    utcnow env + 15 * 60
    <> utcnow env + timedelta_minutes ACCESS_TOKEN_EXPIRE_MINUTES.
Proof.
  intros Hlogin. apply login_returns in Hlogin as (_ & _ & ->).
  eexists. cbn [access_token]. split; [reflexivity |].
  split; [| split].
  - rewrite lookup_insert_ne by discriminate. apply lookup_singleton_eq.
  - apply lookup_insert_eq.
  - unfold timedelta_minutes, ACCESS_TOKEN_EXPIRE_MINUTES. lia.
Qed.

Lemma login_token_expires_after_15_minutes_witness :
  exists claims,
    Demo.token_at 1000 = Some (encode claims SECRET_KEY ALGORITHM) /\
    claims !! "sub" = Some (CStr "testuser") /\
    claims !! "exp" = Some (CInt 1900) /\
    1900 <> 1000 + timedelta_minutes ACCESS_TOKEN_EXPIRE_MINUTES.
Proof.
  destruct (login Demo.platform "testuser" "testpass" (Demo.env_at 1000) Demo.world0)
    as [[t | e] w'] eqn:Hlogin; [| vm_compute in Hlogin; discriminate].
  destruct (login_token_expires_after_15_minutes Demo.platform
              "testuser" "testpass" (Demo.env_at 1000) Demo.world0 w' t Hlogin)
    as (claims & Htok & Hsub & Hexp & Hne).
  exists claims. unfold Demo.token_at. rewrite Hlogin, Htok.
  repeat split; assumption.
Defined.

(** C4 (as the code has it). For a finite negative [x] the value
    [x ** (1/3)] is a complex number: GET /cbrt answers with it, and not
    with a real cube root. *)
Theorem cbrt_of_negative_is_complex (P : Platform)
        (authorization : option token) (env : Env) (w : World)
        (user : option User) (x : float) :
  fst (current_user P authorization env w) = Ok user ->
  db_up env = true ->
  is_finite x = true ->
  ltb x zero = true ->
  exists re im,
    fst (serve P authorization (GetCbrt x) env w) = Ok ("cbrt", Complex re im).
Proof.
  intros Hgate Hdb Hfin Hneg. eexists _, _.
  apply (serve_returns P authorization (GetCbrt x) env w user); auto.
  now apply float_pow_negative_fractional.
Qed.

Lemma cbrt_of_negative_is_complex_witness :
  exists re im,
    fst (serve Demo.platform (Demo.token_at 1000) (GetCbrt Demo.minus_eight)
               (Demo.env_at 1060) Demo.world0)
    = Ok ("cbrt", Complex re im).
Proof.
  apply (cbrt_of_negative_is_complex Demo.platform (Demo.token_at 1000)
           (Demo.env_at 1060) Demo.world0 (Some {| username := "testuser" |}));
    vm_compute; reflexivity.
Defined.

(** C5 as stated fails: a token with a valid signature and an expiry
    still ahead whose subject is the number 42, which is the name of no
    user, is refused with 401; [jwt.decode] wants a subject to be a
    string. *)
Lemma numeric_subject_counterexample :
  signature_ok {| jws_claims := {[ "sub" := CInt 42; "exp" := CInt 2000 ]};
                  jws_key := SECRET_KEY; jws_alg := ALGORITHM |}
               SECRET_KEY [ALGORITHM] = true
  /\
  validate_exp Demo.platform {[ "sub" := CInt 42; "exp" := CInt 2000 ]} 1000
  = Ok tt
  /\
  get_current_user Demo.platform Demo.numeric_subject_token
                   (Demo.env_at 1000) Demo.world0
  = (Raise (HTTPException 401 "Could not validate credentials"), Demo.world0)
  /\
  status_code (fst (serve Demo.platform (Some Demo.numeric_subject_token)
                          (GetSqrt (of_Z 16)) (Demo.env_at 1000) Demo.world0))
  = 401.
Proof. repeat split; vm_compute; reflexivity. Qed.

(** C5 (amended). A token that [jwt.decode] accepts (signature, expiry
    and the other registered claims in order): without a subject the gate
    answers 401; a subject it carries is a string, and when that string is
    no key of the credential table the gate does not fail, it returns no
    identity, and the route's handler runs with it. *)
Theorem unresolved_subject_passes_gate (P : Platform) (tok : token)
        (payload : gmap string claim) (env : Env) (w : World) :
  decode P tok SECRET_KEY [ALGORITHM] (utcnow env) = Ok payload ->
  (payload !! "sub" = None ->
     get_current_user P tok env w
     = (Raise (HTTPException 401 "Could not validate credentials"), w))
  /\
  (forall v, payload !! "sub" = Some v ->
     exists s, v = CStr s /\
     (fake_users_db P !! s = None ->
        get_current_user P tok env w = (Ok None, w) /\
        forall c, serve P (Some tok) c env w
                  = handler P c None SessionLocal env w)).
Proof.
  intros Hdec. split.
  - intros Hsub. unfold get_current_user. now rewrite Hdec, Hsub.
  - intros v Hsub.
    assert (Hstr : exists s, v = CStr s).
    { apply decode_ok in Hdec as (t & _ & _ & _ & _ & Hacc).
      destruct Hacc as (_ & _ & _ & _ & [Hnone | [s Hs]] & _); [congruence |].
      exists s. congruence. }
    destruct Hstr as [s ->]. exists s. split; [reflexivity |].
    intros Hdb.
    assert (Hgate : get_current_user P tok env w = (Ok None, w)).
    { unfold get_current_user. rewrite Hdec, Hsub. cbn.
      rewrite bool_decide_eq_false_2; [reflexivity |].
      now apply not_elem_of_dom. }
    split; [exact Hgate |].
    intros c. rewrite serve_run.
    unfold current_user, bindM, oauth2_scheme, ret. now rewrite Hgate.
Qed.

Lemma unresolved_subject_passes_gate_witness :
  get_current_user Demo.platform Demo.anonymous_token (Demo.env_at 1000) Demo.world0
  = (Raise (HTTPException 401 "Could not validate credentials"), Demo.world0)
  /\
  exists s, CStr "ghost" = CStr s /\
  (fake_users_db Demo.platform !! s = None ->
     get_current_user Demo.platform Demo.ghost_token (Demo.env_at 1000)
                      Demo.world0
     = (Ok None, Demo.world0) /\
     forall c, serve Demo.platform (Some Demo.ghost_token) c (Demo.env_at 1000)
                     Demo.world0
               = handler Demo.platform c None SessionLocal (Demo.env_at 1000)
                         Demo.world0).
Proof.
  split.
  - apply (unresolved_subject_passes_gate Demo.platform Demo.anonymous_token
             {[ "exp" := CInt 2000 ]} (Demo.env_at 1000) Demo.world0);
      vm_compute; reflexivity.
  - apply (unresolved_subject_passes_gate Demo.platform Demo.ghost_token
             {[ "sub" := CStr "ghost"; "exp" := CInt 2000 ]}
             (Demo.env_at 1000) Demo.world0);
      vm_compute; reflexivity.
Defined.




(** Whatever the C library, an infinite bound gives NaN: [inf ** 2] is
    decided before [pow] is called. *)
Lemma integrate_expr_inf (P : Platform) :
  integrate_expr P pinf pinf = Ok (Float nan).
Proof. reflexivity. Qed.

(** C7 as stated fails: the square of [1e200] is out of range, [**]
    raises OverflowError and the request ends as a server error. *)
Lemma integrate_overflow_counterexample :
  serve Demo.platform (Demo.token_at 1000) (GetIntegrate Demo.f_1e200 zero)
        (Demo.env_at 1060) Demo.world0
  = (Raise (OverflowError "(34, 'Numerical result out of range')"), Demo.world0)
  /\
  status_code (fst (serve Demo.platform (Demo.token_at 1000)
                          (GetIntegrate Demo.f_1e200 zero)
                          (Demo.env_at 1060) Demo.world0)) = 500.
Proof. split; vm_compute; reflexivity. Qed.

(** The same on any platform whose [pow] overflows at that square. *)
Lemma integrate_overflow_any_platform (P : Platform)
      (authorization : option token) (env : Env) (w : World) (user : option User) :
  fst (current_user P authorization env w) = Ok user ->
  is_inf (c_pow P Demo.f_1e200 two) = true ->
  serve P authorization (GetIntegrate Demo.f_1e200 zero) env w
  = (Raise (OverflowError "(34, 'Numerical result out of range')"), w).
Proof.
  intros Hgate Hinf. apply (serve_raises P _ _ _ _ user); [assumption |].
  cbn [computation]. unfold integrate_expr.
  change (float_pow P zero two) with (@Ok num (Float zero)). cbn [bind].
  unfold float_pow.
  change (eqb two zero) with false. change (is_nan Demo.f_1e200) with false.
  change (is_nan two) with false. change (is_inf two) with false.
  change (is_inf Demo.f_1e200) with false.
  change (eqb Demo.f_1e200 zero) with false.
  change (ltb Demo.f_1e200 zero) with false. cbn [andb].
  change (eqb Demo.f_1e200 one) with false. cbv iota.
  now rewrite Hinf.
Qed.

(** C7 (amended). Whenever neither square raises, and whatever the
    order of [a] and [b], GET /integrate of an authenticated request whose
    audit row is stored returns [(b**2 - a**2)/2], evaluated in double
    arithmetic on the two squares. *)
Theorem integrate_returns_when_squares_in_range (P : Platform)
        (authorization : option token) (env : Env) (w : World)
        (user : option User) (a b : float) (a2 b2 : num) :
  fst (current_user P authorization env w) = Ok user ->
  db_up env = true ->
  float_pow P a two = Ok a2 ->
  float_pow P b two = Ok b2 ->
  exists p q,
    a2 = Float p /\ b2 = Float q /\
    fst (serve P authorization (GetIntegrate a b) env w)
    = Ok ("integration", Float (div (sub q p) two)).
Proof.
  intros Hgate Hdb Ha Hb.
  destruct (float_pow_two_is_float P a a2 Ha) as [p ->].
  destruct (float_pow_two_is_float P b b2 Hb) as [q ->].
  exists p, q. repeat split.
  apply (serve_returns P authorization (GetIntegrate a b) env w user); auto.
  now apply integrate_expr_floats.
Qed.

Lemma integrate_returns_when_squares_in_range_witness :
  fst (serve Demo.platform (Demo.token_at 1000) (GetIntegrate (of_Z 3) (of_Z 1))
             (Demo.env_at 1060) Demo.world0)
  = Ok ("integration", Float (of_Z (-4))).
Proof.
  destruct (integrate_returns_when_squares_in_range Demo.platform
              (Demo.token_at 1000) (Demo.env_at 1060) Demo.world0
              (Some {| username := "testuser" |}) (of_Z 3) (of_Z 1)
              (Float (of_Z 9)) (Float (of_Z 1))
              ltac:(vm_compute; reflexivity) ltac:(reflexivity)
              ltac:(vm_compute; reflexivity) ltac:(vm_compute; reflexivity))
    as (p & q & Hp & Hq & Hserve).
  injection Hp as <-. injection Hq as <-. rewrite Hserve.
  vm_compute. reflexivity.
Defined.

(** C8. When the gate lets the request through, the computation
    completes and the commit of the audit row fails, the failure leaves
    the handler as an unhandled exception: the answer is a 500, not the
    computed value, and the table has no new row. *)
Theorem audit_failure_is_server_error (P : Platform)
        (authorization : option token) (c : call) (env : Env) (w : World)
        (user : option User) (v : num) :
  fst (current_user P authorization env w) = Ok user ->
  computation P c = Ok v ->
  db_up env = false ->
  exists e w',
    serve P authorization c env w = (Raise e, w') /\
    e = OperationalError "commit failed" /\
    status_code (fst (serve P authorization c env w)) = 500 /\
    logs w' = logs w.
Proof.
  intros Hgate Hv Hdb.
  rewrite serve_run, Hgate, handler_run, Hv, Hdb.
  eexists _, _. repeat split.
Qed.

Lemma audit_failure_is_server_error_witness :
  exists e w',
    serve Demo.platform (Demo.token_at 1000) (GetSqrt (of_Z 16))
          (Demo.env_db_down 1060) Demo.world0 = (Raise e, w') /\
    e = OperationalError "commit failed" /\
    status_code (fst (serve Demo.platform (Demo.token_at 1000) (GetSqrt (of_Z 16))
                            (Demo.env_db_down 1060) Demo.world0)) = 500 /\
    logs w' = logs Demo.world0.
Proof.
  apply (audit_failure_is_server_error Demo.platform (Demo.token_at 1000)
           (GetSqrt (of_Z 16)) (Demo.env_db_down 1060) Demo.world0
           (Some {| username := "testuser" |}) (Float (of_Z 4)));
    vm_compute; reflexivity.
Defined.




(** C10 as stated fails: with both bounds infinite the value is NaN,
    which is neither zero nor the negation of itself; with both bounds
    [1e200] no value is returned at all. *)
Lemma integrate_not_antisymmetric_counterexample :
  (exists r, integrate_expr Demo.platform pinf pinf = Ok (Float r) /\
             eqb r zero = false /\ eqb r (opp r) = false)
  /\
  (forall v, integrate_expr Demo.platform Demo.f_1e200 Demo.f_1e200 <> Ok v).
Proof.
  split.
  - exists nan. repeat split.
  - intros v. vm_compute. discriminate.
Qed.

(** C10 (amended). When the squares of both bounds are finite floats,
    the value for [(a, b)] is the negation of the value for [(b, a)] (the
    same bits under the opposite sign, or [+0.0] on both sides when the
    squares are equal), the two are equal under [==] after negation, and
    the value for [(a, a)] is [+0.0]. *)
Theorem integrate_antisymmetric_on_finite_squares (P : Platform)
        (a b p q : float) :
  float_pow P a two = Ok (Float p) ->
  float_pow P b two = Ok (Float q) ->
  is_finite p = true ->
  is_finite q = true ->
  exists r1 r2,
    integrate_expr P a b = Ok (Float r1) /\
    integrate_expr P b a = Ok (Float r2) /\
    (r1 = opp r2 \/ (r1 = zero /\ r2 = zero)) /\
    eqb r1 (opp r2) = true /\
    integrate_expr P a a = Ok (Float zero).
Proof.
  intros Ha Hb Hp Hq.
  exists (div (sub q p) two), (div (sub p q) two).
  split; [now apply integrate_expr_floats |].
  split; [now apply integrate_expr_floats |].
  assert (Hanti : div (sub q p) two = opp (div (sub p q) two) \/
                  (div (sub q p) two = zero /\ div (sub p q) two = zero)).
  { destruct (sub_antisymmetric p q Hp Hq) as [-> | [-> ->]].
    - left. apply div_opp_l.
    - right. split; reflexivity. }
  split; [exact Hanti |]. split.
  - destruct Hanti as [<- | [-> ->]]; [| reflexivity].
    apply eqb_refl_not_nan, div_two_not_nan. now apply sub_not_nan.
  - rewrite (integrate_expr_floats P a a p p Ha Ha).
    now rewrite (sub_diag p Hp).
Qed.

Lemma integrate_antisymmetric_on_finite_squares_witness :
  exists r1 r2,
    integrate_expr Demo.platform (of_Z 3) (of_Z 1) = Ok (Float r1) /\
    integrate_expr Demo.platform (of_Z 1) (of_Z 3) = Ok (Float r2) /\
    (r1 = opp r2 \/ (r1 = zero /\ r2 = zero)) /\
    eqb r1 (opp r2) = true /\
    integrate_expr Demo.platform (of_Z 3) (of_Z 3) = Ok (Float zero).
Proof.
  apply (integrate_antisymmetric_on_finite_squares Demo.platform
           (of_Z 3) (of_Z 1) (of_Z 9) (of_Z 1));
    vm_compute; reflexivity.
Defined.

(** * Further properties of the service *)

(** ** Tokens and the gate *)

Lemma subject_known (s : string) :
  forall P : Platform, s ∈ dom (fake_users_db P) <-> s = "testuser".
Proof.
  intros P. unfold fake_users_db. rewrite dom_singleton_L.
  apply elem_of_singleton.
Qed.

Lemma get_user_testuser (P : Platform) (s : string) :
  get_user (fake_users_db P) (CStr s)
  = if bool_decide (s = "testuser") then Some {| username := s |} else None.
Proof.
  cbn [get_user]. destruct (bool_decide (s = "testuser")) eqn:Hs.
  - apply bool_decide_eq_true_1 in Hs.
    rewrite bool_decide_eq_true_2; [reflexivity | now apply subject_known].
  - apply bool_decide_eq_false_1 in Hs.
    rewrite bool_decide_eq_false_2; [reflexivity |]. now rewrite subject_known.
Qed.

(** X1. A token minted by a successful login opens the gate, for the
    name that logged in, at every time up to 900 seconds after it was
    issued, and is answered with 401 at every later time. *)
Theorem login_token_opens_gate_until_expiry (P : Platform)
        (name password : string) (env env' : Env) (w w0 w' : World) (t : Token) :
  login P name password env w0 = (Ok t, w') ->
  fst (current_user P (Some (access_token t)) env' w)
  = if utcnow env + 900 <? utcnow env'
    then Raise credentials_exception
    else Ok (Some {| username := name |}).
Proof.
  intros Hlogin. apply login_returns in Hlogin as (Hdb & _ & ->).
  cbn [access_token].
  unfold current_user, bindM, oauth2_scheme, ret, get_current_user, decode,
    encode.
  cbn [jws_claims].
  replace (signature_ok _ SECRET_KEY [ALGORITHM]) with true by reflexivity.
  rewrite validate_minted_claims.
  destruct (utcnow env + 900 <? utcnow env'); [reflexivity |]. cbn [bind].
  rewrite lookup_insert_ne by discriminate.
  rewrite lookup_singleton_eq. cbn [fst get_user].
  rewrite bool_decide_eq_true_2; [reflexivity |].
  now apply elem_of_dom.
Qed.

Lemma login_token_opens_gate_until_expiry_witness :
  (forall t w',
     login Demo.platform "testuser" "testpass" (Demo.env_at 1000) Demo.world0
     = (Ok t, w') ->
     fst (current_user Demo.platform (Some (access_token t)) (Demo.env_at 1900)
                       Demo.world0)
     = Ok (Some {| username := "testuser" |}) /\
     fst (current_user Demo.platform (Some (access_token t)) (Demo.env_at 1901)
                       Demo.world0)
     = Raise credentials_exception)
  /\
  exists t, fst (login Demo.platform "testuser" "testpass" (Demo.env_at 1000)
                       Demo.world0) = Ok t.
Proof.
  split.
  - intros t w' Hlogin. split.
    + apply (login_token_opens_gate_until_expiry Demo.platform "testuser"
               "testpass" (Demo.env_at 1000) (Demo.env_at 1900)
               Demo.world0 Demo.world0 w' t Hlogin).
    + apply (login_token_opens_gate_until_expiry Demo.platform "testuser"
               "testpass" (Demo.env_at 1000) (Demo.env_at 1901)
               Demo.world0 Demo.world0 w' t Hlogin).
  - eexists. vm_compute. reflexivity.
Defined.

(** X2. The gate lets a request through only with a token signed with
    the service's key under HS256 whose registered claims pass
    [jwt.decode]: [exp] absent or a value [int()] converts (a number or a
    numeric string) that is not yet past, [nbf] absent or convertible and
    not in the future, [iat] absent or convertible, no [aud] and no
    [at_hash], [jti] absent or a string; and with a string subject. The
    identity it hands on is that subject when it is in the credential
    table, and none otherwise. *)
Theorem gate_accepts_only_valid_tokens (P : Platform)
        (authorization : option token) (env : Env) (w : World)
        (ident : option User) :
  fst (current_user P authorization env w) = Ok ident ->
  exists t s,
    authorization = Some (Signed t) /\
    jws_key t = SECRET_KEY /\
    jws_alg t = ALGORITHM /\
    acceptable P (jws_claims t) (utcnow env) /\
    jws_claims t !! "sub" = Some (CStr s) /\
    ident = if bool_decide (s = "testuser") then Some {| username := s |} else None.
Proof.
  destruct authorization as [tok |]; [| discriminate].
  unfold current_user, bindM, oauth2_scheme, ret, get_current_user.
  destruct (decode P tok SECRET_KEY [ALGORITHM] (utcnow env))
    as [payload | e] eqn:Hdec; [| destruct e; discriminate].
  apply decode_ok in Hdec as (t & -> & -> & Hkey & Halg & Hacc).
  apply list_elem_of_singleton in Halg.
  destruct (Hacc) as (_ & _ & _ & _ & [Hsub | [s Hsub]] & _);
    rewrite Hsub; [discriminate |].
  cbn [fst]. rewrite get_user_testuser. intros [= <-]. exists t, s.
  split; [reflexivity |]. split; [assumption |]. split; [assumption |].
  split; [assumption |]. split; [assumption | reflexivity].
Qed.

Lemma gate_accepts_only_valid_tokens_witness :
  exists t s,
    Some Demo.string_expiry_token = Some (Signed t) /\
    jws_key t = SECRET_KEY /\
    jws_alg t = ALGORITHM /\
    acceptable Demo.platform (jws_claims t) 1060 /\
    jws_claims t !! "sub" = Some (CStr s) /\
    Some {| username := "testuser" |}
    = if bool_decide (s = "testuser") then Some {| username := s |} else None.
Proof.
  apply (gate_accepts_only_valid_tokens Demo.platform
           (Some Demo.string_expiry_token)
           (Demo.env_at 1060) Demo.world0 (Some {| username := "testuser" |})).
  vm_compute. reflexivity.
Defined.





(** X5. [create_access_token] and [jwt.decode] round trip, for claims
    that [jwt.decode] has nothing against ([exp] apart: a subject and a
    [jti] that are strings if present, no [aud], no [at_hash], [iat] and
    [nbf] that [int()] converts, [nbf] not in the future): the minted
    token decodes to the given claims with [exp] set (over any [exp] the
    caller passed), as long as the clock has not passed [exp], and is
    refused as expired afterwards; the window is the given delta, and 15
    minutes when the delta is absent or zero (a zero [timedelta] is
    falsy). Minting changes nothing in the world. *)
Theorem minted_token_round_trip (P : Platform) (data : gmap string claim)
        (delta : option Z) (env : Env) (w : World) (now' : Z) :
  acceptable P (delete "exp" data) now' ->
  let window := match delta with
                | Some d => if d =? 0 then 900 else d
                | None => 900
                end in
  exists tok,
    create_access_token data delta env w = (Ok tok, w) /\
    decode P tok SECRET_KEY [ALGORITHM] now'
    = if utcnow env + window <? now'
      then Raise (JWTError "Signature has expired.")
      else Ok (<[ "exp" := CInt (utcnow env + window) ]> data).
Proof.
  intros Hacc window. eexists. split; [reflexivity |].
  unfold decode, encode. cbn [jws_claims].
  replace (signature_ok _ SECRET_KEY [ALGORITHM]) with true by reflexivity.
  assert (Hw : match delta with
               | Some d => if d =? 0 then timedelta_minutes 15 else d
               | None => timedelta_minutes 15
               end = window) by (destruct delta as [d |]; reflexivity).
  rewrite Hw, (validate_claims_with_exp P data _ _ Hacc).
  now destruct (utcnow env + window <? now').
Qed.

Lemma minted_token_round_trip_witness :
  exists tok,
    create_access_token {[ "sub" := CStr "testuser"; "exp" := CInt 5 ]} (Some 0)
                        (Demo.env_at 1000) Demo.world0
    = (Ok tok, Demo.world0) /\
    decode Demo.platform tok SECRET_KEY [ALGORITHM] 1900
    = Ok (<[ "exp" := CInt 1900 ]>
            ({[ "sub" := CStr "testuser"; "exp" := CInt 5 ]} : gmap string claim)).
Proof.
  apply (minted_token_round_trip Demo.platform
           {[ "sub" := CStr "testuser"; "exp" := CInt 5 ]} (Some 0)
           (Demo.env_at 1000) Demo.world0 1900).
  unfold acceptable, int_claim_is, str_claim.
  split; [left; reflexivity |]. split; [left; reflexivity |].
  split; [left; reflexivity |]. split; [reflexivity |].
  split; [right; exists "testuser"; reflexivity |].
  split; [left; reflexivity | reflexivity].
Defined.



(** ** How the routes fail *)

Section FailureModes.
Variable P : Platform.

Lemma float_pow_raises (x y : float) (e : exn) :
  float_pow P x y = Raise e ->
  e = OverflowError "(34, 'Numerical result out of range')" \/
  (e = ZeroDivisionError "0.0 cannot be raised to a negative power" /\
   ltb y zero = true).
Proof.
  unfold float_pow.
  repeat match goal with
         | |- context [if ?b then _ else _] =>
             lazymatch b with
             | context [if _ then _ else _] => fail
             | _ => destruct b eqn:?
             end
         | |- context [let '(_, _) := ?p in _] => destruct p
         end;
    intros H; try discriminate; injection H as <-; auto.
Qed.

Lemma math_1_raises (func : float -> float) (x : float) (e : exn) :
  math_1 func false x = Raise e -> e = ValueError "math domain error".
Proof.
  unfold math_1.
  destruct (is_nan (func x) && negb (is_nan x)); [now intros [= <-] |].
  destruct (is_inf (func x) && is_finite x); [now intros [= <-] | discriminate].
Qed.

Lemma integrate_expr_outcome (a b : float) :
  (exists r, integrate_expr P a b = Ok (Float r)) \/
  integrate_expr P a b = Raise (OverflowError "(34, 'Numerical result out of range')").
Proof.
  unfold integrate_expr.
  destruct (float_pow P b two) as [b2 | e] eqn:Hb.
  - destruct (float_pow_two_is_float P b b2 Hb) as [q ->]. cbn [bind].
    destruct (float_pow P a two) as [a2 | e] eqn:Ha.
    + destruct (float_pow_two_is_float P a a2 Ha) as [p ->]. left. eauto.
    + right. cbn [bind].
      destruct (float_pow_raises a two e Ha) as [-> | [_ H]];
        [reflexivity | discriminate].
  - right. cbn [bind].
    destruct (float_pow_raises b two e Hb) as [-> | [_ H]];
      [reflexivity | discriminate].
Qed.

(** What a computation raises, route by route. *)
Lemma computation_raises (c : call) (e : exn) :
  computation P c = Raise e ->
  e = match c with
      | GetCbrt _ | GetIntegrate _ _ =>
          OverflowError "(34, 'Numerical result out of range')"
      | _ => ValueError "math domain error"
      end.
Proof.
  destruct c as [x | x | x | x | x | a b]; cbn [computation].
  - unfold math_sqrt. destruct (math_1 sqrt false x) eqn:H; [discriminate |].
    cbn. intros [= <-]. now apply math_1_raises in H.
  - intros H. destruct (float_pow_raises x one_third e H) as [-> | [_ H']];
      [reflexivity | discriminate].
  - unfold math_log10. destruct (math_1 (m_log10 P) false x) eqn:H;
      [discriminate |].
    cbn. intros [= <-]. now apply math_1_raises in H.
  - unfold math_sin. destruct (math_1 (c_sin P) false x) eqn:H;
      [discriminate |].
    cbn. intros [= <-]. now apply math_1_raises in H.
  - unfold math_tan. destruct (math_1 (c_tan P) false x) eqn:H;
      [discriminate |].
    cbn. intros [= <-]. now apply math_1_raises in H.
  - destruct (integrate_expr_outcome a b) as [[r ->] | ->];
      [discriminate | now intros [= <-]].
Qed.

End FailureModes.

(** X7. Each route fails in one way only: [math.sqrt], [math.log10],
    [math.sin] and [math.tan] with ValueError "math domain error", the
    two routes that use [**] with OverflowError; no route divides by
    zero, and what /integrate computes is a float, never a complex. *)
Theorem computation_failure_modes (P : Platform) (c : call) :
  (forall e, computation P c = Raise e ->
     e = match c with
         | GetCbrt _ | GetIntegrate _ _ =>
             OverflowError "(34, 'Numerical result out of range')"
         | _ => ValueError "math domain error"
         end)
  /\
  (forall a b v, c = GetIntegrate a b -> computation P c = Ok v ->
     exists r, v = Float r).
Proof.
  split.
  - intros e. apply computation_raises.
  - intros a b v -> Hv. cbn [computation] in Hv.
    destruct (integrate_expr_outcome P a b) as [[r Hr] | Hr];
      rewrite Hr in Hv; [injection Hv as <-; eauto | discriminate].
Qed.

Lemma computation_failure_modes_witness :
  OverflowError "(34, 'Numerical result out of range')"
  = OverflowError "(34, 'Numerical result out of range')"
  /\ exists r, Float (of_Z (-4)) = Float r.
Proof.
  destruct (computation_failure_modes Demo.platform
              (GetIntegrate Demo.f_1e200 zero)) as [Hraise _].
  destruct (computation_failure_modes Demo.platform
              (GetIntegrate (of_Z 3) (of_Z 1))) as [_ Hfloat].
  split.
  - symmetry. apply Hraise. vm_compute. reflexivity.
  - apply (Hfloat (of_Z 3) (of_Z 1)); [reflexivity | vm_compute; reflexivity].
Defined.

(** X8. A calculation request whose arguments are floats, as [call]
    has them, is answered with 200, 401 or 500 and with no other status
    (FastAPI's own 422 is for arguments that are missing or no floats).
    It is a 401 exactly when the gate raises its [HTTPException]. It is
    a 200 exactly when the gate passes, the
    computation gives a finite float and the audit row is committed: a
    value that is an infinity, NaN or a complex number is logged and then
    fails to render, which is a 500 like every unhandled exception. *)
Theorem calculation_status_codes (P : Platform) (authorization : option token)
        (c : call) (env : Env) (w : World) :
  let status := status_code (fst (serve P authorization c env w)) in
  (status = 200 \/ status = 401 \/ status = 500) /\
  (status = 401 <->
   exists detail,
     fst (current_user P authorization env w) = Raise (HTTPException 401 detail))
  /\
  (status = 200 <->
   exists user x,
     fst (current_user P authorization env w) = Ok user /\
     computation P c = Ok (Float x) /\
     is_finite x = true /\
     db_up env = true).
Proof.
  cbn zeta. rewrite serve_run.
  destruct (fst (current_user P authorization env w)) as [user | e] eqn:Hgate.
  - rewrite handler_run.
    destruct (computation P c) as [v | e] eqn:Hv.
    + destruct (db_up env); cbn.
      * unfold renders, response_rendering. cbn [snd].
        destruct v as [x | re im]; [destruct (is_finite x) eqn:Hfin |].
        -- split; [auto |]. split; [split; [discriminate | intros [d H]; discriminate] |].
           split; [intros _; exists user, x; auto | reflexivity].
        -- split; [auto |]. split; [split; [discriminate | intros [d H]; discriminate] |].
           split; [discriminate |].
           intros (u & y & _ & [= <-] & Hy & _). congruence.
        -- split; [auto |]. split; [split; [discriminate | intros [d H]; discriminate] |].
           split; [discriminate |].
           intros (u & y & _ & H & _). discriminate.
      * split; [auto |]. split; [split; [discriminate | intros [d H]; discriminate] |].
        split; [discriminate |].
        intros (u & y & _ & _ & _ & H). discriminate.
    + rewrite (computation_raises P c e Hv).
      destruct c; cbn; (split; [auto |]);
        (split; [split; [discriminate | intros [d H]; discriminate] |]);
        (split; [discriminate | intros (u & y & _ & H & _); discriminate]).
  - apply current_user_failure in Hgate as [[d ->] | [[msg ->] | [msg ->]]]; cbn;
      (split; [auto |]).
    + split; [split; eauto |].
      split; [discriminate | intros (u & y & H & _); discriminate].
    + split; [split; [discriminate | intros [d H]; discriminate] |].
      split; [discriminate | intros (u & y & H & _); discriminate].
    + split; [split; [discriminate | intros [d H]; discriminate] |].
      split; [discriminate | intros (u & y & H & _); discriminate].
Qed.

Lemma calculation_status_codes_examples :
  status_code (fst (serve Demo.platform (Demo.token_at 1000)
                          (GetSqrt (of_Z 16)) (Demo.env_at 1060) Demo.world0))
  = 200 /\
  status_code (fst (serve Demo.platform (Demo.token_at 1000)
                          (GetSqrt pinf) (Demo.env_at 1060) Demo.world0))
  = 500 /\
  status_code (fst (serve Demo.platform (Some Demo.null_expiry_token)
                          (GetSqrt (of_Z 16)) (Demo.env_at 1060) Demo.world0))
  = 500 /\
  status_code (fst (serve Demo.platform (Demo.token_at 1000)
                          (GetSqrt (of_Z 16)) (Demo.env_at 1901) Demo.world0))
  = 401.
Proof. repeat split; vm_compute; reflexivity. Qed.

(** ** What an answer depends on *)

Lemma current_user_ignores_world (P : Platform) (authorization : option token)
      (env : Env) (w w' : World) :
  fst (current_user P authorization env w)
  = fst (current_user P authorization env w').
Proof.
  destruct authorization as [tok |]; [| reflexivity].
  unfold current_user, bindM, oauth2_scheme, ret, get_current_user.
  destruct (decode P tok SECRET_KEY [ALGORITHM] (utcnow env)) as [payload | e].
  - destruct (payload !! "sub") as [[] |]; reflexivity.
  - destruct e; reflexivity.
Qed.

(** X9. Requests are stateless: the answer to a calculation request is
    the same whatever the log table and the trace hold when it arrives. *)
Theorem answer_ignores_log (P : Platform) (authorization : option token)
        (c : call) (env : Env) (w w' : World) :
  fst (serve P authorization c env w) = fst (serve P authorization c env w').
Proof.
  rewrite !serve_run.
  rewrite (current_user_ignores_world P authorization env w w').
  destruct (fst (current_user P authorization env w')) as [user | e];
    [| reflexivity].
  rewrite !handler_run.
  destruct (computation P c); [| reflexivity].
  destruct (db_up env); reflexivity.
Qed.

(** X10. The handlers never look at the identity: two requests for the
    same route and arguments whose tokens both pass the gate, whoever
    the subjects are, get the same answer and leave the same world. *)
Theorem answer_ignores_identity (P : Platform)
        (authorization1 authorization2 : option token) (c : call)
        (env : Env) (w : World) (user1 user2 : option User) :
  fst (current_user P authorization1 env w) = Ok user1 ->
  fst (current_user P authorization2 env w) = Ok user2 ->
  serve P authorization1 c env w = serve P authorization2 c env w.
Proof.
  intros H1 H2. rewrite !serve_run, H1, H2, !handler_run. reflexivity.
Qed.

Lemma answer_ignores_identity_witness :
  serve Demo.platform (Demo.token_at 1000) (GetSqrt (of_Z 16))
        (Demo.env_at 1060) Demo.world0
  = serve Demo.platform (Some Demo.ghost_token) (GetSqrt (of_Z 16))
          (Demo.env_at 1060) Demo.world0.
Proof.
  apply (answer_ignores_identity Demo.platform (Demo.token_at 1000)
           (Some Demo.ghost_token) (GetSqrt (of_Z 16)) (Demo.env_at 1060)
           Demo.world0 (Some {| username := "testuser" |}) None);
    vm_compute; reflexivity.
Defined.

(** ** The log over a run of requests *)

Lemma serve_appends (P : Platform) (authorization : option token) (c : call)
      (env : Env) (w : World) :
  exists rows,
    logs (snd (serve P authorization c env w)) = logs w ++ rows /\
    map result rows
    = map (fun r => str P (snd r))
          (Server.values [fst (serve P authorization c env w)]).
Proof.
  rewrite serve_run.
  destruct (fst (current_user P authorization env w)) as [user | e].
  - rewrite handler_run.
    destruct (computation P c) as [v | e].
    + destruct (db_up env); cbn.
      * eexists [_]. split; reflexivity.
      * exists []. now rewrite app_nil_r.
    + exists []. cbn. now rewrite app_nil_r.
  - exists []. cbn. now rewrite app_nil_r.
Qed.

(** A 200 is the answer to a handler that returned. *)
Lemma serve_200_returned (P : Platform) (authorization : option token)
      (c : call) (env : Env) (w : World) :
  status_code (fst (serve P authorization c env w)) = 200 ->
  Server.is_value (fst (serve P authorization c env w)) = true.
Proof.
  rewrite serve_run.
  destruct (fst (current_user P authorization env w)) as [user | e] eqn:Hgate.
  - rewrite handler_run.
    destruct (computation P c) as [v | e] eqn:Hv.
    + now destruct (db_up env).
    + rewrite (computation_raises P c e Hv). destruct c; discriminate.
  - apply current_user_failure in Hgate as [[d ->] | [[msg ->] | [msg ->]]];
      discriminate.
Qed.

(** X11. The log table is append-only and in step with the handlers:
    over any run of calculation requests the rows present before are
    kept, in place; one row is added for each request whose handler
    returned, in order and with the text of the value returned; the
    requests answered with a 200 are among these, so that they are at
    most as many as the rows added (fewer when a value was logged and
    then could not be rendered). *)
Theorem log_is_append_only (P : Platform) (reqs : list Server.request)
        (w : World) :
  exists rows,
    logs (snd (Server.run P reqs w)) = logs w ++ rows /\
    map result rows
    = map (fun r => str P (snd r)) (Server.values (fst (Server.run P reqs w))) /\
    length rows = Server.returned (fst (Server.run P reqs w)) /\
    (Server.answered (fst (Server.run P reqs w)) <= length rows)%nat /\
    length (fst (Server.run P reqs w)) = length reqs.
Proof.
  revert w. induction reqs as [| r rest IH]; intros w.
  - exists []. cbn. now rewrite app_nil_r.
  - cbn [Server.run].
    destruct (serve_appends P (Server.req_authorization r) (Server.req_call r)
                            (Server.req_env r) w) as (rows1 & Hlogs1 & Hres1).
    pose proof (serve_200_returned P (Server.req_authorization r)
                  (Server.req_call r) (Server.req_env r) w) as H200.
    destruct (serve P (Server.req_authorization r) (Server.req_call r)
                    (Server.req_env r) w) as [answer w1].
    cbn [fst snd] in Hlogs1, Hres1, H200.
    destruct (IH w1) as (rows2 & Hlogs2 & Hres2 & Hlen2 & Hans2 & Hlen).
    destruct (Server.run P rest w1) as [answers w2].
    cbn [fst snd] in *.
    assert (Hlen1 : length rows1
                    = if Server.is_value answer then 1%nat else 0%nat).
    { apply (f_equal (@length string)) in Hres1.
      rewrite !length_map in Hres1. rewrite Hres1.
      now destruct answer. }
    exists (rows1 ++ rows2). split; [| split; [| split; [| split]]].
    + now rewrite Hlogs2, Hlogs1, app_assoc.
    + rewrite map_app, Hres1, Hres2, <- map_app. f_equal.
      unfold Server.values. cbn [flat_map]. now rewrite app_nil_r.
    + rewrite length_app, Hlen1, Hlen2. unfold Server.returned.
      cbn [List.filter]. now destruct (Server.is_value answer).
    + rewrite length_app, Hlen1. unfold Server.answered in *.
      cbn [List.filter].
      destruct (Z.eqb_spec (status_code answer) 200) as [H | H].
      * rewrite (H200 H). cbn [length]. lia.
      * destruct (Server.is_value answer); lia.
    + cbn. now rewrite Hlen.
Qed.

(** A row with no 200: GET /sqrt?x=inf stores its row and cannot render
    its value. *)
Example log_row_without_answer :
  let run := Server.run Demo.platform
               [{| Server.req_authorization := Demo.token_at 1000;
                   Server.req_call := GetSqrt pinf;
                   Server.req_env := Demo.env_at 1060 |}] Demo.world0 in
  map result (logs (snd run)) = ["inf"] /\
  Server.returned (fst run) = 1%nat /\
  Server.answered (fst run) = 0%nat.
Proof. repeat split; vm_compute; reflexivity. Qed.

(** ** More on the calculations *)

Lemma float_pow_two_opp (P : Platform) (x : float) :
  float_pow P (opp x) two = float_pow P x two.
Proof. destruct x as [[] | [] | | [] m e]; reflexivity. Qed.

(** X12. The integration route sees only the magnitudes of its bounds:
    negating [a] or [b] changes neither the answer nor the row stored. *)
Theorem integrate_ignores_signs (P : Platform) (authorization : option token)
        (env : Env) (w : World) (a b : float) :
  integrate_expr P (opp a) b = integrate_expr P a b /\
  integrate_expr P a (opp b) = integrate_expr P a b /\
  serve P authorization (GetIntegrate (opp a) (opp b)) env w
  = serve P authorization (GetIntegrate a b) env w.
Proof.
  assert (H : forall a b, integrate_expr P (opp a) b = integrate_expr P a b /\
                          integrate_expr P a (opp b) = integrate_expr P a b).
  { intros a' b'. unfold integrate_expr. now rewrite !float_pow_two_opp. }
  split; [apply H |]. split; [apply H |].
  rewrite !serve_run.
  destruct (fst (current_user P authorization env w)); [| reflexivity].
  rewrite !handler_run. cbn [computation operation_name response_key].
  destruct (H (opp a) b) as [_ ->]. destruct (H a b) as [-> _].
  unfold audit_row, audit_line. reflexivity.
Qed.

(** X13. At a zero, an infinity or NaN the cube root route answers
    without calling the C library, the same on every platform, and drops
    the sign: NaN for NaN, [0.0] for both zeros, [inf] for both
    infinities. *)
Theorem cbrt_special_values (P : Platform) (x : float) :
  is_nan x || is_inf x || eqb x zero = true ->
  computation P (GetCbrt x)
  = Ok (Float (if is_nan x then nan else if is_inf x then pinf else zero)).
Proof.
  destruct x as [[] | [] | | s m e]; try reflexivity.
  destruct s; discriminate.
Qed.

Lemma cbrt_special_values_witness :
  computation Demo.platform (GetCbrt (S754_infinity true)) = Ok (Float pinf).
Proof.
  apply (cbrt_special_values Demo.platform (S754_infinity true)). reflexivity.
Defined.

(** X14. The sine and tangent routes at the arguments that are no
    numbers to compute with, for a request that passed the gate and on a
    C library that returns NaN there (as C99 has it for an infinity, and
    for a NaN): for [x] an infinity [math] raises its domain error, the
    request ends as a 500 and nothing is logged; for [x] a NaN the handler
    returns NaN, its row is stored with the text of NaN, and the answer is
    a 500 all the same, since NaN cannot be rendered. *)
Theorem sin_tan_of_infinity_and_nan (P : Platform)
        (authorization : option token) (env : Env) (w : World)
        (user : option User) (x : float) (tangent : bool) :
  let c := if tangent then GetTan x else GetSin x in
  let y := if tangent then c_tan P x else c_sin P x in
  fst (current_user P authorization env w) = Ok user ->
  is_nan y = true ->
  (is_inf x = true ->
     serve P authorization c env w = (Raise (ValueError "math domain error"), w) /\
     status_code (fst (serve P authorization c env w)) = 500)
  /\
  (is_nan x = true -> db_up env = true ->
     fst (serve P authorization c env w) = Ok (response_key c, Float nan) /\
     map result (logs (snd (serve P authorization c env w)))
     = map result (logs w) ++ [float_repr P nan] /\
     status_code (fst (serve P authorization c env w)) = 500).
Proof.
  intros c y Hgate Hy. split.
  - intros Hx.
    assert (Hserve : serve P authorization c env w
                     = (Raise (ValueError "math domain error"), w)).
    { apply (serve_raises P _ _ _ _ user _ Hgate).
      unfold c, y in *. destruct tangent; cbn [computation];
        unfold math_tan, math_sin, math_1; rewrite Hy;
        destruct x; try discriminate; reflexivity. }
    now rewrite Hserve.
  - intros Hx Hdb.
    assert (Hcomp : computation P c = Ok (Float nan)).
    { unfold c, y in *. destruct tangent; cbn [computation];
        unfold math_tan, math_sin, math_1; rewrite Hy;
        destruct x; try discriminate; cbn;
        match goal with
        | |- context [is_inf ?v] => destruct v; try discriminate
        end; reflexivity. }
    rewrite serve_run, Hgate, handler_run, Hcomp, Hdb. cbn [fst snd logs].
    split; [reflexivity |]. split; [| reflexivity].
    rewrite map_app. reflexivity.
Qed.

Lemma sin_tan_of_infinity_and_nan_witness :
  serve Demo.platform (Demo.token_at 1000) (GetSin pinf)
        (Demo.env_at 1060) Demo.world0
  = (Raise (ValueError "math domain error"), Demo.world0)
  /\
  (fst (serve Demo.platform (Demo.token_at 1000) (GetTan nan)
              (Demo.env_at 1060) Demo.world0)
   = Ok ("tan", Float nan) /\
   map result (logs (snd (serve Demo.platform (Demo.token_at 1000) (GetTan nan)
                               (Demo.env_at 1060) Demo.world0)))
   = ["nan"] /\
   status_code (fst (serve Demo.platform (Demo.token_at 1000) (GetTan nan)
                           (Demo.env_at 1060) Demo.world0))
   = 500).
Proof.
  split.
  - apply (sin_tan_of_infinity_and_nan Demo.platform (Demo.token_at 1000)
             (Demo.env_at 1060) Demo.world0 (Some {| username := "testuser" |})
             pinf false);
      vm_compute; reflexivity.
  - apply (sin_tan_of_infinity_and_nan Demo.platform (Demo.token_at 1000)
             (Demo.env_at 1060) Demo.world0 (Some {| username := "testuser" |})
             nan true);
      vm_compute; reflexivity.
Defined.

(** ** The square root stays in range *)

Lemma round_to_normal (q e : Z) (l : location) :
  2 ^ 52 <= q < 2 ^ 53 -> -1074 <= e <= 970 ->
  exists m e',
    binary_round_aux prec emax false q e l = S754_finite false m e' /\
    2 ^ 52 <= Z.pos m < 2 ^ 53 /\ e <= e' <= e + 1.
Proof.
  intros Hq He. unfold binary_round_aux.
  rewrite shr_fexp_53 by lia.
  destruct (loc_roundtrip q l) as [-> ->].
  set (q1 := round_nearest_even q l).
  assert (Hq1 : q <= q1 <= q + 1).
  { unfold q1. destruct l as [| []]; cbn; try lia. destruct (Z.even q); lia. }
  destruct (Z.eq_dec q1 (2 ^ 53)) as [Heq | Hne].
  - rewrite Heq. unfold shr_fexp.
    change (Zdigits2 (2 ^ 53)) with 54.
    replace (fexp prec emax (54 + e) - e) with 1
      by (unfold fexp, emin, prec, emax; lia).
    cbn [shr shr_record_of_loc SpecFloat.iter_pos shr_1 Z.pow Z.pow_pos
         Pos.iter Z.mul Pos.mul orb shr_m].
    replace (e + 1 <=? emax - prec) with true
      by (symmetry; apply Z.leb_le; unfold emax, prec; lia).
    eexists _, _. split; [reflexivity |]. split; [| lia].
    change (2 ^ 52) with 4503599627370496.
    change (2 ^ 53) with 9007199254740992. lia.
  - rewrite shr_fexp_53 by lia. cbn [shr_m shr_record_of_loc].
    destruct q1 as [| m | m] eqn:Hm; try lia.
    replace (e <=? emax - prec) with true
      by (symmetry; apply Z.leb_le; unfold emax, prec; lia).
    exists m, e. split; [reflexivity |]. split; lia.
Qed.

(** X15. The square root of a valid float that is not negative is again
    a valid float, and for a positive finite argument it is a normal
    number: the root neither overflows nor falls into the subnormal
    range, whatever the (possibly subnormal) argument. *)
Theorem sqrt_stays_in_range (x : float) :
  valid x = true -> leb zero x = true ->
  valid (sqrt x) = true /\
  (is_finite x = true -> eqb x zero = false ->
   SFclassify prec (sqrt x) = FloatClass.PNormal).
Proof.
  destruct x as [s | [] | | [] mx ex]; try discriminate; intros Hvalid _.
  - split; [reflexivity |]. intros _ H. discriminate.
  - split; [reflexivity |]. discriminate.
  - cbn [valid valid_binary] in Hvalid.
    destruct (sqrt_core_spec mx ex Hvalid)
      as (q & r & e0 & s & Hcore & _ & _ & _ & _ & Hq & He0).
    destruct (round_to_normal q e0
                (if r =? 0 then loc_Exact
                 else loc_Inexact (if r <=? q then Lt else Gt)) Hq ltac:(lia))
      as (m & e & Hround & Hm & He).
    assert (Hsqrt : sqrt (S754_finite false mx ex) = S754_finite false m e).
    { unfold sqrt. cbn [SFsqrt]. now rewrite Hcore. }
    rewrite Hsqrt.
    assert (Hd : Z.pos (digits2_pos m) = 53).
    { apply (Zdigits2_unique (Z.pos m) 53); [exact Hm | lia]. }
    split.
    + cbn [valid valid_binary]. unfold bounded, canonical_mantissa.
      rewrite Hd. apply andb_true_intro. split.
      * apply Z.eqb_eq. unfold fexp, emin, prec, emax. lia.
      * apply Z.leb_le. unfold emax, prec. lia.
    + intros _ _. cbn [SFclassify]. rewrite Hd. reflexivity.
Qed.

Lemma sqrt_stays_in_range_witness :
  valid (sqrt (S754_finite false 1 (-1074))) = true /\
  SFclassify prec (sqrt (S754_finite false 1 (-1074))) = FloatClass.PNormal.
Proof.
  destruct (sqrt_stays_in_range (S754_finite false 1 (-1074)))
    as [Hv Hn]; [reflexivity .. |].
  split; [exact Hv | apply Hn; reflexivity].
Defined.

(** ** The music route *)

Lemma startswith_sep_append (a b : string) :
  Music.startswith_sep (String.append a b)
  = if String.eqb a "" then Music.startswith_sep b else Music.startswith_sep a.
Proof. destruct a; reflexivity. Qed.

(** X16. GET /music looks a track up at [music/<track>.mp3], except
    that a track name beginning with "/" is looked up at [<track>.mp3],
    outside the music folder. It answers 404, naming [<track>.mp3],
    exactly when nothing exists at that path, and otherwise hands out the
    bytes read there as audio/mpeg; without a track it serves "track1". *)
Theorem get_music_lookup (fs : Music.FileSystem) (track : string) :
  let path := if Music.startswith_sep track
              then String.append track ".mp3"
              else String.append "music/" (String.append track ".mp3") in
  Music.get_music fs (Some track)
  = (if Music.path_exists fs path then
       match Music.read_bytes fs path with
       | Some content => Music.Audio content "audio/mpeg"
       | None => Music.OSError path
       end
     else Music.Http (HTTPException 404
            (String.concat "" ["Music file '"; String.append track ".mp3";
                               "' not found."])))
  /\
  Music.get_music fs None = Music.get_music fs (Some "track1").
Proof.
  cbn zeta. split; [| reflexivity].
  unfold Music.get_music, Music.filename_of, Music.path_join.
  rewrite startswith_sep_append.
  assert (Hpath : (if if String.eqb track "" then Music.startswith_sep ".mp3"
                      else Music.startswith_sep track
                   then String.append track ".mp3"
                   else if String.eqb Music.MUSIC_FOLDER ""
                           || Music.endswith_sep Music.MUSIC_FOLDER
                        then String.append Music.MUSIC_FOLDER
                                           (String.append track ".mp3")
                        else String.append Music.MUSIC_FOLDER
                               (String.append "/" (String.append track ".mp3")))
                  = if Music.startswith_sep track
                    then String.append track ".mp3"
                    else String.append "music/" (String.append track ".mp3")).
  { destruct track as [| c rest]; [reflexivity |]. cbn [String.eqb].
    destruct (Music.startswith_sep (String c rest)); reflexivity. }
  rewrite Hpath.
  now destruct (Music.path_exists fs _).
Qed.
